(* ===== verification/_CoqProject ===== *)
-Q . S2P
Prelude.v
Constructs.v
FindAll.v
CdkLib.v
Waf.v
UsRegionStack.v
Deploy.v
WafEval.v
