(* ===== verification/Prelude.v ===== *)
(** * A verification development of [src/lib/us-region-stack.ts]

    ** The program

    The repository defines one AWS CDK stack, [UsRegionStack]
    ([src/lib/us-region-stack.ts], lines 19-74).  Its constructor is the
    whole program: it runs once, at synthesis time, and builds an
    in-memory construct tree that the CDK later turns into a
    CloudFormation template.  In order, the constructor

    - calls [super(scope, id, props)]: the [cdk.Stack] base constructor
      adds the stack node under [scope] and validates the stack name;
    - creates the repository's [Waf] construct under the id
      [`${id}-CloudFrontFireWall`], with [devConfig.allowedIps] and
      [useCloudFront: true], and stores [wafv2.webAcl.attrArn] in the
      public field [wafAttrArn];
    - creates an IAM [Role] [`${id}-LambdaEdgeFunctionRole`] trusted by
      the services [lambda.amazonaws.com] and [edgelambda.amazonaws.com]
      (a [CompositePrincipal]) with the two AWS managed policies
      [service-role/AWSLambdaBasicExecutionRole] and
      [AWSLambda_FullAccess];
    - creates a [NodejsFunction] [`${id}-LambdaEdgeFunction`] (runtime
      Node.js 22, entry [./lambda/edge/index.ts], handler [handler],
      [awsSdkConnectionReuse: false], 1024 MB, a 5 second timeout, the
      role above) and stores its [currentVersion] in [edgeFnVersion];
    - adds two cdk-nag suppressions (AwsSolutions-IAM4 and -IAM5) to the
      role and, with [applyToChildren = true], to everything under it.

    ** How the parts interact

    The only state is the construct tree of the [constructs] library.
    Every [new X(this, id, ...)] registers a child of the stack with
    [node.addChild], which throws on an empty or duplicate id; the L2
    constructs ([Role], [NodejsFunction]) add their CloudFormation
    resource as a child ["Resource"]; [currentVersion] adds (once, then
    caches) a child ["CurrentVersion"] of the function; cdk-nag writes
    its suppressions into the metadata of the resources under the role.
    The constructor therefore runs in a state-and-error monad over the
    tree, each statement one step, in the order of the source.

    ** The files

    - [Prelude] (this file): the monad [StM] (notation [let!] in scope
      [cdk_scope]), its laws, [for_each] for the library's loops, string
      lemmas for template literals, hint databases [cdk] and [cdk_rw],
      the tactic [inv_bind].
    - [Constructs]: the construct tree ([tree], newest node first, keyed
      by [path]); [sanitizeId]; [add_child] with [ConstructError]
      ([EmptyId], [DuplicateId]); [find], [update_node], and [find_all],
      the reference enumeration of a subtree (creation order); the
      invariant [wf] (an inductive: unique paths, parents before children,
      valid ids) and [refs_earlier] (references point to earlier nodes);
      every tree operation preserves them.
    - [FindAll]: the library's [node.findAll(order)], a recursive walk
      ([visit], with fuel) over [node.children] in insertion order, for
      [PREORDER] and [POSTORDER], and its agreement with [find_all].
    - [CdkLib]: the library calls the constructor makes, modelled from the
      libraries' documented behaviour as the nodes they add:
      [Stack_new] ([super(scope, id, props)], with the stack-name and
      description checks), [Role_new], [NodejsFunction_new] (handler
      normalisation, the connection-reuse variable, the default role),
      [Duration_seconds] and [toSeconds]/[convert], [currentVersion],
      [addResourceSuppressions] (cdk-nag, over [findAll]); the invariant
      [Inv], the preorder [grows] (no node is ever removed), and
      [refs_to P] (every reference names a node whose kind [P] accepts;
      [refs_resources] for resources), preserved by each call.
    - [Waf]: the repository's [Waf] construct, whose source is not under
      [src/]: the typeclass [WafConstruct] states what the stack relies
      on (the spec's contract, and that its references name resources);
      [WafSpec] is an instance built from the spec, proved to satisfy it.
    - [UsRegionStack]: the constructor [UsRegionStack] (lines 22-73), in a
      Section over any [WafConstruct] and any [devConfig]; its result
      [UsRegionStackOut] holds the stack path and the two public fields.
    - [Deploy]: the provisioning service's dependency order (spec 4.1),
      modelled from the spec as a step relation [deploy_step] over the
      resources created so far, with an executable plan runner
      [run_plan].
    - [WafEval]: what the allow-list means to the firewall service,
      modelled from the spec ("addresses permitted, all others denied"):
      [Module Cidr] holds IPv4 addresses as 32-bit integers, the CIDR
      text ["a.b.c.d/n"] with its parser [parse_cidr], and membership
      [in_cidr] by the network [mask] ([Z.land], [Z.shiftl], [Z.ones]);
      [Module Eval] evaluates a web ACL on a source address, [acl_eval]:
      the rules in ascending priority ([merge_sort]), the first whose IP
      set holds the address decides, else the default action.

    ** The theorems

    Each claim is a property of the constructor that a plausible change
    to lines 22-73 would break.
    - Refinement (C1): the tree built, read through the public fields by
      [describe], is the abstract description [edge_description] the
      spec gives of the stack: every literal of lines 25-70.
    - Errors (C2): the constructor throws exactly when the [Stack] base
      constructor does; nothing after [super] can throw.
    - Frame (C3): nothing outside the new stack's subtree changes; two
      stacks in one app both succeed and both describe the spec's stack
      (C4).
    - Lambda@Edge (C5): the function fits the origin-event quotas and
      not the viewer-event ones; the construct ids never collide (C6);
      [edgeFnVersion] is the function's cached [currentVersion] (C7).
    - Deployment order (C8): in every deployment state the provisioning
      service can reach, the function follows its role and the version
      follows the function.
    - The stack name (C9): without props the constructor succeeds
      exactly when the id has at most 128 characters and matches the
      stack-name pattern.
    - The allow-list (C10): the web ACL [wafAttrArn] names allows exactly
      the addresses in a block of [devConfig.allowedIps].
    - The suppressions (C11): the IAM4/IAM5 exemptions sit on the role's
      resource only, not on the function or its version.

    ** Fuel and bounds

    The only recursion that is not structural is the library's [visit]
    in [FindAll]; [findAll] gives it [length t + 1] levels, and
    [findAll_perm] shows that with this fuel it enumerates the whole
    subtree.  Every other definition is structural, and every run of the
    constructor is a finite composition of total steps, so the success
    theorems state that the constructor returns.  Duration amounts are
    integers ([Z]); JavaScript numbers are doubles, exact on the integers
    the code uses ([5]), and fractional amounts are not modelled.  In
    [WafEval], the parser keeps octets below 256 and prefix lengths in
    1..32, so a parsed block is a 32-bit address.

    ** Not modelled

    The Lambda@Edge handler ([lambda/edge/index.ts], runtime code not
    under [src/]), esbuild bundling and asset staging (with the errors
    [NodejsFunction] can throw while the stack is built: a missing entry
    or lock file, a failed bundling; the spec, section 7, leaves such
    failures to deployment), logical-id hashing, template synthesis, the
    provisioning service beyond its dependency order (rollback, failures,
    quotas), the ordering of [node.children] for ids that look like array
    indices (JavaScript enumerates those first; the constructor uses
    none), string lengths in UTF-16 units (strings are ASCII here, so
    [String.length] counts characters), and, of the firewall service,
    IPv6 IP sets, rule statements other than IP set references, [Count]
    actions, rate limits, forwarded-address headers, and the rejection of
    an IP set whose entry is not a CIDR block (in [WafEval] such an entry
    holds no address).
*)

From stdpp Require Export base list sets strings.
From Stdlib Require Export Lia.

Declare Scope cdk_scope.
Delimit Scope cdk_scope with cdk.

(** ** Results and the construction monad *)

(** A TypeScript call either returns or throws; [Err] carries what it
    throws. *)
Inductive result (E A : Type) : Type :=
| Ok (a : A)
| Err (e : E).
Arguments Ok {E A} a.
Arguments Err {E A} e.

(** Construction code mutates a shared construct tree and may throw: a
    computation reads the state and either returns a value with the new
    state or throws (and the partial state is lost, as when a CDK
    synthesis aborts). *)
Definition StM (S E A : Type) : Type := S -> result E (A * S).

Definition ret {S E A} (a : A) : StM S E A := fun s => Ok (a, s).

Definition bind {S E A B} (m : StM S E A) (k : A -> StM S E B) : StM S E B :=
  fun s => match m s with
           | Ok (a, s') => k a s'
           | Err e => Err e
           end.

Definition throw {S E A} (e : E) : StM S E A := fun _ => Err e.

Definition get {S E} : StM S E S := fun s => Ok (s, s).

Definition put {S E} (s : S) : StM S E unit := fun _ => Ok (tt, s).

Notation "'let!' x ':=' m 'in' k" := (bind m (fun x => k))
  (at level 10, x pattern, m at level 100, k at level 200) : cdk_scope.

Open Scope cdk_scope.

(** [for (const x of l) { f(x); }]: the calls run left to right and the
    first one that throws stops the loop. *)
Fixpoint for_each {S E A} (l : list A) (f : A -> StM S E unit) : StM S E unit :=
  match l with
  | [] => ret tt
  | x :: l' => let! _ := f x in for_each l' f
  end.

(** ** Laws of the monad *)

Section MonadLaws.
Context {S E : Type}.

Lemma bind_ok {A B} (m : StM S E A) (k : A -> StM S E B) s r :
  bind m k s = Ok r <-> exists a s', m s = Ok (a, s') /\ k a s' = Ok r.
Proof.
  unfold bind. split.
  - destruct (m s) as [[a s']|e]; [eauto | discriminate].
  - intros (a & s' & -> & Hk). exact Hk.
Qed.

Lemma bind_err {A B} (m : StM S E A) (k : A -> StM S E B) s e :
  m s = Err e -> bind m k s = Err e.
Proof. unfold bind. by intros ->. Qed.

Lemma bind_ok_step {A B} (m : StM S E A) (k : A -> StM S E B) s a s' :
  m s = Ok (a, s') -> bind m k s = k a s'.
Proof. unfold bind. by intros ->. Qed.

Lemma bind_ret_l {A B} (a : A) (k : A -> StM S E B) s :
  bind (ret a) k s = k a s.
Proof. reflexivity. Qed.

Lemma for_each_app {A} (l1 l2 : list A) (f : A -> StM S E unit) s :
  for_each (l1 ++ l2) f s = bind (for_each l1 f) (fun _ => for_each l2 f) s.
Proof.
  revert s. induction l1 as [|x l1 IH]; intros s; simpl; [reflexivity|].
  unfold bind. destruct (f x s) as [[[] s']|e]; [|reflexivity].
  rewrite IH. reflexivity.
Qed.

(** A loop whose body preserves a predicate on the state preserves it. *)
Lemma for_each_preserves {A} (P : S -> Prop) (l : list A) (f : A -> StM S E unit) :
  (forall x s s', x ∈ l -> P s -> f x s = Ok (tt, s') -> P s') ->
  forall s s', P s -> for_each l f s = Ok (tt, s') -> P s'.
Proof.
  induction l as [|x l IH]; intros Hf s s' HP Hrun; simpl in Hrun.
  - by injection Hrun as <-.
  - apply bind_ok in Hrun as ([] & s1 & H1 & H2).
    eapply IH; [| |exact H2].
    + intros y t t' Hy. apply Hf. set_solver.
    + apply (Hf x s s1); [set_solver|done|done].
Qed.

End MonadLaws.

Create HintDb cdk.
Create Rewrite HintDb cdk_rw.
#[export] Hint Rewrite @bind_ret_l : cdk_rw.

(** Split a hypothesis [bind m k s = Ok r] into the run of [m] and of [k]. *)
Ltac inv_bind H :=
  let a := fresh "a" in
  let s := fresh "s" in
  let Hm := fresh "Hm" in
  apply bind_ok in H as (a & s & Hm & H).

(** ** Strings built by template literals *)

(** [`${id}-Suffix`] is [id +:+ "-Suffix"]; two such ids built from the
    same [id] differ whenever the suffixes differ. *)
Lemma template_neq (id s1 s2 : string) :
  s1 <> s2 -> id +:+ s1 <> id +:+ s2.
Proof. intros Hne Heq. apply Hne. by apply (inj (String.append id)). Qed.

(** [String.append] does not unfold by [simpl]; its cons equation. *)
Lemma string_app_cons (x : Ascii.ascii) (a b : string) :
  String x a +:+ b = String x (a +:+ b).
Proof. reflexivity. Qed.

Lemma string_app_nil_l (b : string) : "" +:+ b = b.
Proof. reflexivity. Qed.

#[export] Hint Rewrite string_app_cons string_app_nil_l : cdk_rw.

Lemma string_app_assoc (a b c : string) : (a +:+ b) +:+ c = a +:+ (b +:+ c).
Proof. induction a as [|x a IH]; autorewrite with cdk_rw; congruence. Qed.

Lemma string_length_app (a b : string) :
  String.length (a +:+ b) = String.length a + String.length b.
Proof. induction a as [|x a IH]; autorewrite with cdk_rw; simpl; congruence. Qed.

#[export] Hint Resolve template_neq : cdk.

(** ** Lists *)

(** The concatenation of the images of distinct elements is duplicate-free
    when each image is and distinct elements have disjoint images. *)
Lemma NoDup_bind {A B} (g : A -> list B) (l : list A) :
  NoDup l -> (forall y, y ∈ l -> NoDup (g y)) ->
  (forall y1 y2 x, y1 ∈ l -> y2 ∈ l -> x ∈ g y1 -> x ∈ g y2 -> y1 = y2) ->
  NoDup (l ≫= g).
Proof.
  induction 1 as [|y l Hy Hl IH]; intros Hg Hdis; csimpl; [constructor|].
  apply NoDup_app. split_and!.
  - apply Hg. set_solver.
  - intros x Hx (y' & Hx' & Hy')%list_elem_of_bind.
    assert (y = y') as <- by (apply (Hdis y y' x); set_solver). done.
  - apply IH; [intros; apply Hg; set_solver|]. intros; eapply Hdis; [..|done|done]; set_solver.
Qed.

