(* ===== verification/Constructs.v ===== *)
(** * The construct tree of the [constructs] library

    Every [new X(scope, id, props)] of [src/lib/us-region-stack.ts]
    (lines 23, 25, 32, 44) registers a node in the construct tree through
    the library's [Node] constructor:
<<
      this.id = sanitizeId(id);
      if (scope && !this.id) throw new Error('Only root constructs may have an empty ID');
      scope?.node.addChild(host, this.id);   // throws on a duplicate name
>>
    This file models that tree, generic in the payload [V] a node carries:
    a node is named by its path from the root (the [App], path [[]]), and
    the tree is the list of nodes, newest first, so that the creation
    order the CDK keeps is visible.  The operations are [add_child] (with
    its two errors), [find], [update_node] (mutation of a node, as
    [addMetadata] does) and [find_all], the reference enumeration of the
    subtree under a node in creation order (the library's own walk is in
    [FindAll]).  The invariant [wf] says the tree is a tree: paths are
    unique, every parent was created before its children, every id is
    non-empty and sanitized.  [refs_earlier] says that every reference a
    node holds names a node created before it, so the dependency graph is acyclic. *)

From S2P Require Import Prelude.
From Stdlib Require Import Ascii.

(** A path from the root: the ids of the nodes on the way down. *)
Abbreviation path := (list string).

(** The errors the library's [Node] constructor throws. *)
Inductive ConstructError : Type :=
| EmptyId (scope : path)
| DuplicateId (scope : path) (name : string).

#[export] Instance ConstructError_eq_dec : EqDecision ConstructError.
Proof. solve_decision. Qed.

(** ** [sanitizeId]: [id.replace(/\//g, '--')] *)

Definition slash : Ascii.ascii := "/"%char.
Definition dash : Ascii.ascii := "-"%char.

Fixpoint sanitizeId (s : string) : string :=
  match s with
  | EmptyString => EmptyString
  | String c s' =>
      if decide (c = slash) then String dash (String dash (sanitizeId s'))
      else String c (sanitizeId s')
  end.

Fixpoint has_slash (s : string) : bool :=
  match s with
  | EmptyString => false
  | String c s' => bool_decide (c = slash) || has_slash s'
  end.

(** A valid construct id, as the tree stores it: non-empty, no [/]. *)
Definition valid_id (s : string) : bool :=
  negb (bool_decide (s = "")) && negb (has_slash s).

(** ** The tree and its operations *)

Section Tree.
Context {V : Type}.

Definition tree : Type := list (path * V).

Fixpoint find (t : tree) (p : path) : option V :=
  match t with
  | [] => None
  | (q, v) :: t' => if decide (q = p) then Some v else find t' p
  end.

(** The scope a handle names exists: the root always does. *)
Definition scope_exists (t : tree) (scope : path) : Prop :=
  scope = [] \/ is_Some (find t scope).

(** [new C(scope, id, ...)]: the [Node] constructor and [addChild]. *)
Definition add_child (scope : path) (id : string) (v : V)
    : StM tree ConstructError path :=
  fun t =>
    let name := sanitizeId id in
    if decide (name = "") then Err (EmptyId scope)
    else match find t (scope ++ [name]) with
         | Some _ => Err (DuplicateId scope name)
         | None => Ok (scope ++ [name], (scope ++ [name], v) :: t)
         end.

(** Mutation of the node at [p] in place (the other nodes are shared). *)
Definition update_node (p : path) (f : V -> V) (t : tree) : tree :=
  map (fun '(q, v) => if decide (q = p) then (q, f v) else (q, v)) t.

(** [c.node.findAll()]: [c] and every node below it, in creation
    order (parents before children). *)
Definition find_all (t : tree) (p : path) : list path :=
  reverse (filter (fun q => p `prefix_of` q) (map fst t)).

(** ** Well-formedness *)

Definition parent_ok (t : tree) (p : path) : Prop :=
  exists scope name, p = scope ++ [name] /\ valid_id name = true
                     /\ scope_exists t scope.

Inductive wf : tree -> Prop :=
| wf_nil : wf []
| wf_cons p v t :
    wf t -> find t p = None -> parent_ok t p -> wf ((p, v) :: t).

#[global] Instance scope_exists_dec t scope : Decision (scope_exists t scope).
Proof. unfold scope_exists. apply _. Defined.

Section Refs.
(** The paths a payload refers to (a role, a function, ...). *)
Variable refs : V -> list path.

Inductive refs_earlier : tree -> Prop :=
| re_nil : refs_earlier []
| re_cons p v t :
    refs_earlier t -> Forall (fun r => is_Some (find t r)) (refs v) ->
    refs_earlier ((p, v) :: t).
End Refs.
End Tree.

Arguments tree : clear implicits.

(** ** [sanitizeId] *)

Lemma sanitizeId_no_slash s : has_slash (sanitizeId s) = false.
Proof.
  induction s as [|c s IH]; simpl; [done|].
  case_decide; simpl; rewrite IH; [done|]. by rewrite bool_decide_false.
Qed.

Lemma sanitizeId_id s : has_slash s = false -> sanitizeId s = s.
Proof.
  induction s as [|c s IH]; simpl; [done|].
  intros [Hc Hs]%orb_false_iff. rewrite decide_False, IH; [done|done|].
  by apply bool_decide_eq_false in Hc.
Qed.

Lemma sanitizeId_app a b : sanitizeId (a +:+ b) = sanitizeId a +:+ sanitizeId b.
Proof.
  induction a as [|c a IH]; [done|]. rewrite string_app_cons. simpl.
  case_decide; by rewrite IH.
Qed.

Lemma sanitizeId_empty s : sanitizeId s = "" <-> s = "".
Proof. destruct s; simpl; [done|]. case_decide; done. Qed.

Lemma valid_id_sanitizeId s : s <> "" -> valid_id (sanitizeId s) = true.
Proof.
  intros Hs. unfold valid_id. rewrite sanitizeId_no_slash, andb_true_r.
  apply negb_true_iff, bool_decide_eq_false. by rewrite sanitizeId_empty.
Qed.

#[export] Hint Rewrite sanitizeId_app sanitizeId_no_slash : cdk_rw.

Section TreeLemmas.
Context {V : Type}.
Implicit Types (t : tree V) (v : V) (p q scope : path).

Lemma find_None_not_in t p : find t p = None <-> p ∉ map fst t.
Proof.
  induction t as [|[q v] t IH]; simpl; [set_solver|].
  case_decide; subst; [set_solver|]. rewrite IH. set_solver.
Qed.

Lemma find_is_Some_in t p : is_Some (find t p) <-> p ∈ map fst t.
Proof.
  destruct (find t p) eqn:E.
  - split; [|eauto]. intros _. destruct (decide (p ∈ map fst t)); [done|].
    apply find_None_not_in in n. congruence.
  - apply find_None_not_in in E. split; [by intros []|done].
Qed.

(** *** [add_child] on each branch *)

Lemma add_child_ok scope id v t p t' :
  add_child scope id v t = Ok (p, t') <->
  id <> "" /\ find t (scope ++ [sanitizeId id]) = None /\
  p = scope ++ [sanitizeId id] /\ t' = (p, v) :: t.
Proof.
  unfold add_child. rewrite <- (sanitizeId_empty id).
  case_decide; [naive_solver|].
  destruct (find t _); naive_solver.
Qed.

Lemma add_child_err scope id v t e :
  add_child scope id v t = Err e <->
  (id = "" /\ e = EmptyId scope) \/
  (id <> "" /\ is_Some (find t (scope ++ [sanitizeId id])) /\
   e = DuplicateId scope (sanitizeId id)).
Proof.
  unfold add_child. rewrite <- (sanitizeId_empty id).
  case_decide; [naive_solver|].
  destruct (find t _); [naive_solver|]. split; [done|]. intros [|(_ & [] & _)]; naive_solver.
Qed.

(** Insert/lookup round trip: the new node is found at its path, and
    every other path keeps its node. *)
Lemma find_cons_eq p v t : find ((p, v) :: t) p = Some v.
Proof. simpl. by rewrite decide_True. Qed.

Lemma find_cons_ne p q v t : p <> q -> find ((p, v) :: t) q = find t q.
Proof. intros. simpl. by rewrite decide_False. Qed.

Lemma find_cons_is_Some p q v t : is_Some (find t q) -> is_Some (find ((p, v) :: t) q).
Proof. simpl. case_decide; eauto. Qed.

Lemma scope_exists_cons p v t scope :
  scope_exists t scope -> scope_exists ((p, v) :: t) scope.
Proof. intros [|]; [by left | right; by apply find_cons_is_Some]. Qed.

(** *** [update_node] *)

Lemma map_fst_update_node p f t : map fst (update_node p f t) = map fst t.
Proof. induction t as [|[q v] t IH]; simpl; [done|]. case_decide; simpl; by f_equal. Qed.

Lemma find_update_node_is_Some p f t q :
  is_Some (find (update_node p f t) q) <-> is_Some (find t q).
Proof. rewrite !find_is_Some_in. by rewrite map_fst_update_node. Qed.

Lemma find_update_node_eq p f t : find (update_node p f t) p = f <$> find t p.
Proof.
  induction t as [|[q v] t IH]; simpl; [done|].
  destruct (decide (q = p)) as [->|Hne]; simpl.
  - by rewrite decide_True.
  - by rewrite decide_False.
Qed.

Lemma find_update_node_ne p f t q : p <> q -> find (update_node p f t) q = find t q.
Proof.
  intros Hpq. induction t as [|[r v] t IH]; simpl; [done|].
  case_decide; simpl; case_decide; subst; congruence.
Qed.

(** *** [find_all] *)

Lemma elem_of_find_all t p q : q ∈ find_all t p <-> p `prefix_of` q /\ q ∈ map fst t.
Proof. unfold find_all. rewrite elem_of_reverse, list_elem_of_filter. done. Qed.
End TreeLemmas.

#[export] Hint Resolve find_cons_is_Some scope_exists_cons : cdk.
#[export] Hint Rewrite @find_cons_eq @map_fst_update_node @find_update_node_eq : cdk_rw.

(** ** The invariants are preserved *)

Section Invariants.
Context {V : Type}.
Implicit Types (t : tree V) (v : V) (p q scope : path).

Lemma scope_exists_update_node p f t scope :
  scope_exists t scope <-> scope_exists (update_node p f t) scope.
Proof. unfold scope_exists. by rewrite find_update_node_is_Some. Qed.

(** Two updates by the same function commute. *)
Lemma update_node_comm p q f t :
  update_node p f (update_node q f t) = update_node q f (update_node p f t).
Proof.
  induction t as [|[r v] t IH]; simpl; [done|].
  rewrite IH. by repeat (case_decide; simpl); subst.
Qed.

Lemma find_update_node_None p f t q :
  find t q = None <-> find (update_node p f t) q = None.
Proof. rewrite !find_None_not_in. by rewrite map_fst_update_node. Qed.

(** Adding a child under an existing scope keeps the tree a tree. *)
Lemma add_child_wf scope id v t p t' :
  wf t -> scope_exists t scope -> add_child scope id v t = Ok (p, t') -> wf t'.
Proof.
  intros Hwf Hs (Hid & Hfresh & -> & ->)%add_child_ok.
  constructor; [done|done|].
  exists scope, (sanitizeId id). split; [done|]. by split; [apply valid_id_sanitizeId|].
Qed.

Lemma update_node_wf p f t : wf t -> wf (update_node p f t).
Proof.
  induction 1 as [|q v t Hwf IH Hfresh (scope & name & -> & Hname & Hs)]; [constructor|].
  simpl. case_decide; constructor; try done;
    try (by apply find_update_node_None);
    exists scope, name; by rewrite <- scope_exists_update_node.
Qed.

Lemma wf_NoDup t : wf t -> NoDup (map fst t).
Proof.
  induction 1 as [|p v t _ IH Hfresh _]; simpl; constructor; [|done].
  by apply find_None_not_in.
Qed.

(** In a well-formed tree a node's parent was created before it. *)
Lemma wf_parent_earlier t p v t0 :
  wf ((p, v) :: t0) -> exists scope name, p = scope ++ [name] /\ scope_exists t0 scope.
Proof. inversion 1 as [|? ? ? _ _ (scope & name & ? & _ & ?)]; subst; eauto. Qed.

Section Refs.
Variable refs : V -> list path.

Lemma add_child_refs_earlier scope id v t p t' :
  refs_earlier refs t -> Forall (fun r => is_Some (find t r)) (refs v) ->
  add_child scope id v t = Ok (p, t') -> refs_earlier refs t'.
Proof. intros Ht Hv (_ & _ & -> & ->)%add_child_ok. by constructor. Qed.

Lemma update_node_refs_earlier p f t :
  (forall v, refs (f v) = refs v) ->
  refs_earlier refs t -> refs_earlier refs (update_node p f t).
Proof.
  intros Hf. induction 1 as [|q v t Ht IH Hv]; [constructor|].
  simpl. case_decide; constructor; try done; rewrite ?Hf;
    (eapply Forall_impl; [exact Hv|]); intros r Hr; by apply find_update_node_is_Some.
Qed.
End Refs.
End Invariants.

#[export] Hint Resolve add_child_wf update_node_wf : cdk.

(** ** Freshness in a well-formed tree *)

Section Fresh.
Context {V : Type}.
Implicit Types (t l : tree V) (v : V) (p q : path).

Lemma wf_parent_exists t p x :
  wf t -> is_Some (find t (p ++ [x])) -> scope_exists t p.
Proof.
  induction 1 as [|q v t Hwf IH Hfresh (scope & name & -> & _ & Hs)]; simpl;
    [by intros []|].
  case_decide as Heq.
  - apply app_inj_tail in Heq as [-> _]. eauto with cdk.
  - eauto with cdk.
Qed.

(** A child of a node that does not exist does not exist either. *)
Lemma wf_child_fresh t p x :
  wf t -> p <> [] -> find t p = None -> find t (p ++ [x]) = None.
Proof.
  intros Hwf Hp Hfresh. destruct (find t (p ++ [x])) eqn:E; [|done].
  destruct (wf_parent_exists t p x Hwf) as [|[v' Hv]]; [by eauto|done|congruence].
Qed.

Lemma find_app l t q :
  find (l ++ t) q = match find l q with Some v => Some v | None => find t q end.
Proof. induction l as [|[p v] l IH]; simpl; [done|]. by case_decide. Qed.

Lemma find_app_None l t q :
  find (l ++ t) q = None <-> find l q = None /\ find t q = None.
Proof. rewrite find_app. destruct (find l q); naive_solver. Qed.

(** Nodes all below [r] do not contain a path that is not below [r]. *)
Lemma find_below_None l r q :
  Forall (fun pv => r `prefix_of` pv.1) l -> ~ r `prefix_of` q -> find l q = None.
Proof.
  induction 1 as [|[p v] l Hp _ IH]; intros Hq; simpl; [done|].
  case_decide; subst; [done|]. by apply IH.
Qed.
End Fresh.

(** Nothing lies below a node that does not exist. *)
Lemma wf_below_fresh {V} (t : tree V) p q :
  wf t -> p <> [] -> find t p = None -> p `prefix_of` q -> find t q = None.
Proof.
  intros Hwf Hp Hf [k ->]. induction k as [|x k IH] using rev_ind.
  - by rewrite app_nil_r.
  - rewrite app_assoc. apply wf_child_fresh; [done| |done]. by destruct p.
Qed.

(** No path of [l] lies below [p]: [find_all] sees nothing of [l]. *)
Lemma filter_prefix_nil (l : list path) p :
  (forall q, q ∈ l -> ~ p `prefix_of` q) -> filter (fun q => p `prefix_of` q) l = [].
Proof.
  induction l as [|q l IH]; intros Hl; [done|].
  rewrite filter_cons_False by (apply Hl; set_solver). apply IH. set_solver.
Qed.

(** Siblings have disjoint subtrees. *)
Lemma sibling_not_prefix (p q : path) a b :
  a <> b -> (p ++ [a]) `prefix_of` q -> ~ (p ++ [b]) `prefix_of` q.
Proof.
  intros Hab Ha Hb.
  assert (p ++ [a] = p ++ [b]) as [_ Heq]%app_inj_tail; [|congruence].
  destruct (prefix_weak_total _ _ _ Ha Hb) as [Hp|Hp];
    [|symmetry]; apply prefix_length_eq; [done| |done|]; rewrite !length_app; simpl; lia.
Qed.

Lemma find_all_app {V} (l t : tree V) p : find_all (l ++ t) p = find_all t p ++ find_all l p.
Proof. unfold find_all. by rewrite map_app, filter_app, reverse_app. Qed.

(** The subtree of [p] in nodes none of which lies below [p]. *)
Lemma find_all_none_below {V} (t : tree V) p :
  (forall q, q ∈ map fst t -> ~ p `prefix_of` q) -> find_all t p = [].
Proof. intros H. unfold find_all. by rewrite filter_prefix_nil. Qed.

Lemma Forall_fst_elem {V} (P : path -> Prop) (l : tree V) :
  Forall (fun pv => P pv.1) l -> forall q, q ∈ map fst l -> P q.
Proof.
  induction 1 as [|[p v] l Hp _ IH]; intros q Hq; simpl in Hq; [set_solver|].
  apply elem_of_cons in Hq as [->|Hq]; [done|by apply IH].
Qed.

(** Nodes added in front of a tree do not hide the nodes it had. *)
Lemma find_app_NoDup_r {V} (l t : tree V) q :
  NoDup (map fst (l ++ t)) -> q ∈ map fst t -> find (l ++ t) q = find t q.
Proof.
  intros Hnd Hq. rewrite find_app.
  rewrite map_app in Hnd. apply NoDup_app in Hnd as (_ & Hdis & _).
  destruct (find l q) eqn:E; [|done].
  exfalso. apply (Hdis q); [|done]. apply find_is_Some_in. by rewrite E.
Qed.

(** What a node refers to is in the tree. *)
Lemma refs_earlier_found {V} (refs : V -> list path) (t : tree V) p v :
  refs_earlier refs t -> find t p = Some v -> Forall (fun r => is_Some (find t r)) (refs v).
Proof.
  induction 1 as [|q w t Ht IH Hw]; simpl; [done|].
  case_decide; [intros [= <-]|intros Hf];
    (eapply Forall_impl; [first [exact Hw | exact (IH Hf)]|]); intros r Hr; by apply find_cons_is_Some.
Qed.

(** ** Properties of the construct tree *)

(** Insert/lookup round trip: after [add_child] succeeds, the new node
    is found at the returned path [scope ++ [sanitizeId id]], and every
    other path finds what it found before. *)
Theorem add_child_round_trip {V} scope id (v : V) (t : tree V) p t' :
  add_child scope id v t = Ok (p, t') ->
  p = scope ++ [sanitizeId id] /\ find t' p = Some v /\
  (forall q, q <> p -> find t' q = find t q).
Proof.
  intros (_ & _ & -> & ->)%add_child_ok. split_and!; [done|apply find_cons_eq|].
  intros q Hq. by apply find_cons_ne.
Qed.

(** Adding a child under a scope that exists keeps a
    well-formed tree well-formed, and keeps every node it had. *)
Theorem add_child_preserves_wf {V} scope id (v : V) (t : tree V) p t' :
  wf t -> scope_exists t scope -> add_child scope id v t = Ok (p, t') ->
  wf t' /\ (forall q, is_Some (find t q) -> is_Some (find t' q)).
Proof.
  intros Hwf Hs Hadd. split; [exact (add_child_wf _ _ _ _ _ _ Hwf Hs Hadd)|].
  apply add_child_ok in Hadd as (_ & _ & _ & ->). intros q. apply find_cons_is_Some.
Qed.

(** [sanitizeId] turns every id but the empty one into a valid
    construct id (non-empty, without the path separator [/]). *)
Theorem sanitizeId_valid s : valid_id (sanitizeId s) = true <-> s <> "".
Proof.
  split; [|apply valid_id_sanitizeId].
  intros Hv ->. discriminate.
Qed.

Lemma add_child_round_trip_witness :
  exists r, add_child ["App"] "a/b" 7 [(["App"], 0)] = Ok r /\
    r.1 = ["App"] ++ [sanitizeId "a/b"] /\ find r.2 r.1 = Some 7 /\
    (forall q, q <> r.1 -> find r.2 q = find [(["App"], 0)] q).
Proof.
  destruct (add_child ["App"] "a/b" 7 [(["App"], 0)]) as [[p t']|e] eqn:E.
  - exists (p, t'). split; [reflexivity|]. exact (add_child_round_trip _ _ _ _ _ _ E).
  - vm_compute in E. discriminate.
Defined.

Lemma add_child_preserves_wf_witness :
  exists r, add_child [] "Stack" 1 [] = Ok r /\
    wf r.2 /\ (forall q, is_Some (find (V:=nat) [] q) -> is_Some (find r.2 q)).
Proof.
  destruct (add_child [] "Stack" 1 []) as [[p t']|e] eqn:E.
  - exists (p, t'). split; [reflexivity|].
    exact (add_child_preserves_wf [] "Stack" 1 [] p t' wf_nil (or_introl eq_refl) E).
  - vm_compute in E. discriminate.
Defined.
