(* ===== verification/FindAll.v ===== *)
(** * [Node.findAll] of the [constructs] library

    cdk-nag's [addResourceSuppressions(construct, rules, true)] (called at
    lines 59-72 of [src/lib/us-region-stack.ts]) visits
    [construct.node.findAll()], the library's recursive walk:
<<
      public findAll(order = ConstructOrder.PREORDER): IConstruct[] {
        const ret = new Array<IConstruct>();
        visit(this.host);
        return ret;
        function visit(c: IConstruct) {
          if (order === ConstructOrder.PREORDER) { ret.push(c); }
          for (const child of c.node.children) { visit(child); }
          if (order === ConstructOrder.POSTORDER) { ret.push(c); }
        }
      }
>>
    [node.children] lists the children in the order they were added.
    [visit] recurses on the children, which is not structural on the flat
    tree of [Constructs]; it takes a fuel, and [findAll] gives it one more
    than the number of nodes.  That is enough: on a well-formed tree the
    walk enumerates the same nodes, each once, as the reference definition
    [find_all] of [Constructs] (the nodes whose path extends [c]), in
    either order ([findAll_perm]); cdk-nag's loop in [CdkLib] is computed
    through it. *)

From S2P Require Import Prelude Constructs.

Inductive ConstructOrder : Type := PREORDER | POSTORDER.

Section FindAll.
Context {V : Type}.
Implicit Types (t : tree V) (p q c x : path).

(** [q] is a child of [p]. *)
Definition is_child p q : Prop := length q = S (length p) /\ p `prefix_of` q.

#[global] Instance is_child_dec p q : Decision (is_child p q).
Proof. unfold is_child. apply _. Defined.

(** [c.node.children]: in insertion order (the tree is newest first). *)
Definition children t p : list path :=
  reverse (filter (is_child p) (map fst t)).

Fixpoint visit (order : ConstructOrder) (fuel : nat) t c : list path :=
  match fuel with
  | 0 => []
  | S f =>
      (if order is PREORDER then [c] else []) ++
      (children t c ≫= visit order f t) ++
      (if order is POSTORDER then [c] else [])
  end.

Definition findAll (order : ConstructOrder) t c : list path :=
  visit order (S (length t)) t c.

(** [x] lies strictly below [p]. *)
Definition below p x : Prop := p `prefix_of` x /\ length p < length x.

(** ** Paths *)

Lemma prefix_snoc_inv p x (a : string) :
  p `prefix_of` x ++ [a] -> p = x ++ [a] \/ p `prefix_of` x.
Proof.
  intros Hp. destruct (decide (length p <= length x)).
  - right. destruct (prefix_weak_total p x (x ++ [a]) Hp (prefix_app_r _ _ _ (reflexivity _)))
      as [|Hx]; [done|].
    by rewrite (prefix_length_eq x p Hx).
  - left. apply prefix_length_eq; [done|]. rewrite length_app. simpl. lia.
Qed.

(** Two paths of one length that are prefixes of one path are equal. *)
Lemma prefix_same_length p q x :
  p `prefix_of` x -> q `prefix_of` x -> length p = length q -> p = q.
Proof.
  intros Hp Hq Hl. destruct (prefix_weak_total p q x Hp Hq) as [H|H];
    [|symmetry]; apply prefix_length_eq; [done|lia|done|lia].
Qed.

(** The child of [p] on the way to [x]. *)
Lemma child_towards p x :
  below p x -> is_child p (take (S (length p)) x) /\ take (S (length p)) x `prefix_of` x.
Proof.
  intros [[k ->] Hl]. rewrite length_app in Hl.
  destruct k as [|a k]; simpl in Hl; [lia|].
  assert (take (S (length p)) (p ++ a :: k) = p ++ [a]) as ->.
  { clear Hl. induction p as [|y p IH]; simpl; [done|]. by rewrite IH. }
  split; [split|].
  - rewrite length_app. simpl. lia.
  - by apply prefix_app_r.
  - exists k. by rewrite <- app_assoc.
Qed.

(** ** The nodes of a well-formed tree *)

Lemma wf_cons_inv p v t : wf ((p, v) :: t) -> wf t /\ find t p = None /\ parent_ok t p.
Proof. by inversion 1. Qed.

(** Every non-empty prefix of a node is a node. *)
Lemma wf_ancestor t x q :
  wf t -> x ∈ map fst t -> q `prefix_of` x -> q <> [] -> q ∈ map fst t.
Proof.
  intros Hwf. revert x. induction Hwf as [|p v t Hwf IH Hf (scope & name & -> & _ & Hs)];
    simpl; [set_solver|]. intros x Hx Hq Hne.
  apply elem_of_cons in Hx as [->|Hx]; [|by right; apply (IH x)].
  apply prefix_snoc_inv in Hq as [->|Hq]; [set_solver|].
  destruct Hs as [->|[w Hw]].
  - by apply prefix_nil_inv in Hq.
  - apply elem_of_cons. right. apply (IH scope); [|done|done].
    apply find_is_Some_in. by exists w.
Qed.

(** A path of a well-formed tree is no longer than the tree: its
    non-empty prefixes are distinct nodes. *)
Lemma wf_length_bound t x : wf t -> x ∈ map fst t -> length x <= length t.
Proof.
  intros Hwf. revert x. induction Hwf as [|p v t Hwf IH Hf (scope & name & -> & _ & Hs)];
    simpl; [set_solver|].
  intros x [->|Hx]%elem_of_cons; [|specialize (IH x Hx); lia].
  rewrite length_app. simpl. destruct Hs as [->|[w Hw]]; simpl; [lia|].
  specialize (IH scope (proj1 (find_is_Some_in _ _) (mk_is_Some _ _ Hw))). lia.
Qed.

Lemma elem_of_children t p c : c ∈ children t p <-> is_child p c /\ c ∈ map fst t.
Proof. unfold children. by rewrite elem_of_reverse, list_elem_of_filter. Qed.

Lemma NoDup_children t p : wf t -> NoDup (children t p).
Proof.
  intros Hwf. unfold children. rewrite reverse_Permutation.
  apply NoDup_filter, wf_NoDup, Hwf.
Qed.

(** ** What the walk visits *)

(** With fuel [f], [visit] reaches [p] and the nodes below it fewer than
    [f] levels down. *)
Lemma elem_of_visit o f t p x :
  wf t ->
  x ∈ visit o f t p <->
  0 < f /\ (x = p \/ (below p x /\ x ∈ map fst t /\ length x < length p + f)).
Proof.
  intros Hwf. revert p. induction f as [|f IH]; intros p; cbn [visit].
  { split; [set_solver|lia]. }
  assert (Hmid : x ∈ children t p ≫= visit o f t <->
                 below p x /\ x ∈ map fst t /\ length x < length p + S f).
  { rewrite list_elem_of_bind. split.
    - intros (c & Hx & [[Hcl Hcp] Hct]%elem_of_children).
      apply IH in Hx as (Hf & [->|([Hcx Hlx] & Hxt & Hlen)]).
      + split_and!; [split; [done|lia]|done|lia].
      + split_and!; [split; [by trans c|lia]|done|lia].
    - intros (Hb & Hxt & Hlen). destruct (child_towards p x Hb) as [[Hcl Hcp] Hcx].
      set (c := take (S (length p)) x) in *.
      exists c. split.
      + apply IH. pose proof (prefix_length _ _ Hcx). split; [lia|].
        destruct (decide (length x = length c)).
        * left. symmetry. apply prefix_length_eq; [done|lia].
        * right. split_and!; [split; [done|lia]|done|lia].
      + apply elem_of_children. split; [done|]. apply (wf_ancestor t x c); [done..|].
        intros Hc. rewrite Hc in Hcl. simpl in Hcl. lia. }
  rewrite !elem_of_app, Hmid.
  split; [intros Hx; split; [lia|] | intros [_ Hx]]; destruct o; set_solver.
Qed.

Lemma visit_prefix o f t p x : wf t -> x ∈ visit o f t p -> p `prefix_of` x.
Proof. intros Hwf (_ & [->|[[Hp _] _]])%elem_of_visit; done. Qed.

(** The walk visits no node twice. *)
Lemma NoDup_visit o f t p : wf t -> NoDup (visit o f t p).
Proof.
  intros Hwf. revert p. induction f as [|f IH]; intros p; cbn [visit]; [constructor|].
  assert (Hp : p ∉ children t p ≫= visit o f t).
  { intros (c & Hx & [[Hl _] _]%elem_of_children)%list_elem_of_bind.
    apply visit_prefix, prefix_length in Hx; [lia|done]. }
  assert (Hnd : NoDup (children t p ≫= visit o f t)).
  { apply NoDup_bind; [by apply NoDup_children|intros; apply IH|].
    intros c1 c2 x [[H1l _] _]%elem_of_children [[H2l _] _]%elem_of_children H1 H2.
    apply (prefix_same_length c1 c2 x); [by eapply visit_prefix..|lia]. }
  destruct o; rewrite ?app_nil_r; simpl.
  - by constructor.
  - apply NoDup_app. split_and!; [done|set_solver|apply NoDup_singleton].
Qed.

(** ** Fuel *)

End FindAll.

(** ** The walk and its reference *)

(** [c.node.findAll(order)] enumerates, in either order, each node of the
    subtree of [c] exactly once: it is a permutation of the reference
    [find_all] (the nodes whose path extends [c]). *)
Lemma findAll_perm {V} o (t : tree V) p :
  wf t -> p ∈ map fst t -> findAll o t p ≡ₚ find_all t p.
Proof.
  intros Hwf Hp. apply NoDup_Permutation.
  - apply NoDup_visit, Hwf.
  - unfold find_all. rewrite reverse_Permutation. apply NoDup_filter, wf_NoDup, Hwf.
  - intros x. rewrite elem_of_find_all. unfold findAll. rewrite elem_of_visit by done. split.
    + intros (_ & [->|([Hpx _] & Hx & _)]); done.
    + intros [Hpx Hx]. split; [lia|].
      destruct (decide (length p < length x)) as [Hl|Hl].
      * right. pose proof (wf_length_bound t x Hwf Hx). split_and!; [by split|done|lia].
      * left. symmetry. apply prefix_length_eq; [done|lia].
Qed.

