(* ===== verification/CdkLib.v ===== *)
(** * The aws-cdk-lib and cdk-nag calls of the constructor

    [src/lib/us-region-stack.ts] calls [cdk.Stack] (line 23), [Role] with
    a [CompositePrincipal] of [ServicePrincipal]s and two
    [ManagedPolicy.fromAwsManagedPolicyName] (lines 32-43),
    [NodejsFunction] with [Runtime.NODEJS_22_X] and
    [cdk.Duration.seconds(5)] (lines 44-56), [Function.currentVersion]
    (line 57) and [NagSuppressions.addResourceSuppressions] (lines 59-72).
    None of these is code of the repository: this file models the part of
    their documented behaviour the stack depends on, as the nodes they add
    to the construct tree of [Constructs] and the errors they throw.

    As in the CDK, an L2 construct ([Role], [Function], [Version]) is a
    node with no resource of its own ([KConstruct]) whose default child
    ["Resource"] holds the CloudFormation resource (an L1: [KRole],
    [KFunction], [KVersion]); a reference ([role.roleArn],
    [fn.functionName]) names the L1 node.  Asset staging nodes of the
    bundled code and the logical-id hashing are not modelled. *)

From S2P Require Import Prelude Constructs FindAll.
From Stdlib Require Import ZArith Ascii.

(** ** Durations ([cdk.Duration]) *)

Inductive TimeUnit : Type := Milliseconds | Seconds | Minutes | Hours | Days.

#[export] Instance TimeUnit_eq_dec : EqDecision TimeUnit.
Proof. solve_decision. Qed.

(** [TimeUnit.inMillis]. *)
Definition inMillis (u : TimeUnit) : Z :=
  match u with
  | Milliseconds => 1 | Seconds => 1000 | Minutes => 60000
  | Hours => 3600000 | Days => 86400000
  end.

Record Duration : Type := mkDuration { amount : Z; time_unit : TimeUnit }.

(** ** Errors *)

Inductive CdkError : Type :=
| ConstructErr (e : ConstructError)
| InvalidStackName (name : string)
| InvalidStackDescription (description : string)
| NegativeDuration (amount : Z)
| NonIntegralDuration (amount : Z) (from to : TimeUnit)
| EmptySuppressionTargets
| ShortSuppressionReason (rule : string).

(** ** Runtimes, principals, policies *)

Inductive Runtime : Type := NODEJS_16_X | NODEJS_18_X | NODEJS_20_X | NODEJS_22_X.

#[export] Instance Runtime_eq_dec : EqDecision Runtime.
Proof. solve_decision. Qed.

Definition runtime_name (r : Runtime) : string :=
  match r with
  | NODEJS_16_X => "nodejs16.x" | NODEJS_18_X => "nodejs18.x"
  | NODEJS_20_X => "nodejs20.x" | NODEJS_22_X => "nodejs22.x"
  end.

(** The runtimes that ship the AWS SDK for JavaScript v2, for which
    [awsSdkConnectionReuse] defaults to [true]. *)
Definition runtime_has_sdk_v2 (r : Runtime) : bool :=
  match r with NODEJS_16_X => true | _ => false end.

Inductive Principal : Type :=
| ServicePrincipal (service : string)
| CompositePrincipal (principals : list Principal).

(** The services a principal lets assume a role ([sts:AssumeRole]). *)
Fixpoint principal_services (p : Principal) : list string :=
  match p with
  | ServicePrincipal s => [s]
  | CompositePrincipal ps =>
      (fix go (ps : list Principal) : list string :=
         match ps with
         | [] => []
         | q :: qs => principal_services q ++ go qs
         end) ps
  end.

(** [ManagedPolicy.fromAwsManagedPolicyName(name)]. *)
Inductive ManagedPolicy : Type := AwsManagedPolicy (name : string).

#[export] Instance ManagedPolicy_eq_dec : EqDecision ManagedPolicy.
Proof. solve_decision. Qed.

(** Its [managedPolicyArn], in the partition [partition]. *)
Definition managedPolicyArn (partition : string) (mp : ManagedPolicy) : string :=
  match mp with
  | AwsManagedPolicy name => "arn:" +:+ partition +:+ ":iam::aws:policy/" +:+ name
  end.

(** ** CloudFormation resources (the L1 nodes) *)

Record CfnRole : Type := mkCfnRole {
  role_trusted : list string;              (* AssumeRolePolicyDocument *)
  role_managedPolicyArns : list ManagedPolicy;
}.

Record CfnFunction : Type := mkCfnFunction {
  fn_runtime : Runtime;
  fn_handler : string;
  fn_entry : string;                       (* the bundled entry file *)
  fn_memorySize : option Z;                (* undefined: 128 MB *)
  fn_timeout : option Z;                   (* seconds; undefined: 3 *)
  fn_role : path;                          (* the CfnRole node *)
  fn_environment : list (string * string);
}.

Record CfnVersion : Type := mkCfnVersion { ver_function : path }.

Inductive WafAction : Type := Allow | Block.

Record CfnIPSet : Type := mkCfnIPSet {
  ipset_scope : string;
  ipset_addresses : list string;
}.

Record WafRule : Type := mkWafRule {
  rule_name : string;
  rule_priority : Z;
  rule_action : WafAction;
  rule_ipset : path;                       (* ipSetReferenceStatement *)
}.

Record CfnWebACL : Type := mkCfnWebACL {
  acl_scope : string;
  acl_defaultAction : WafAction;
  acl_rules : list WafRule;
}.

(** ** Stacks *)

Record Environment : Type := mkEnvironment {
  env_account : option string;
  env_region : option string;
}.

Record StackProps : Type := mkStackProps {
  stackName : option string;
  description : option string;
  env : option Environment;
  terminationProtection : option bool;
}.

Definition defaultStackProps : StackProps := mkStackProps None None None None.

(** ** Nodes *)

Record NagPackSuppression : Type := mkSuppression {
  sup_id : string;
  sup_reason : string;
}.

Inductive Kind : Type :=
| KStack (props : StackProps)
| KConstruct
| KRole (r : CfnRole)
| KFunction (f : CfnFunction)
| KVersion (v : CfnVersion)
| KIPSet (s : CfnIPSet)
| KWebACL (a : CfnWebACL).

(** A node: what it is, and its [cdk_nag] metadata
    ([rules_to_suppress]). *)
Record Node : Type := mkNode {
  node_kind : Kind;
  node_meta : list NagPackSuppression;
}.

Abbreviation Tree := (tree Node).

(** [possibleL1 instanceof CfnResource]. *)
Definition is_resource (k : Kind) : bool :=
  match k with KStack _ | KConstruct => false | _ => true end.

(** The nodes a node refers to: the dependency edges of the template. *)
Definition kind_refs (k : Kind) : list path :=
  match k with
  | KFunction f => [fn_role f]
  | KVersion v => [ver_function v]
  | KWebACL a => map rule_ipset (acl_rules a)
  | _ => []
  end.

Definition node_refs (n : Node) : list path := kind_refs (node_kind n).

(** Construction code runs in the monad over the construct tree. *)
Abbreviation M := (StM Tree CdkError).

(** ** Operations *)

(** The tree's errors, as the [Error] the constructor throws. *)
Definition lift {A} (m : StM Tree ConstructError A) : M A :=
  fun t => match m t with
           | Ok r => Ok r
           | Err e => Err (ConstructErr e)
           end.

Definition of_result {A} (r : result CdkError A) : M A :=
  fun t => match r with Ok a => Ok (a, t) | Err e => Err e end.

(** [new C(scope, id)] for a node carrying [k] and no metadata yet. *)
Definition new_node (scope : path) (id : string) (k : Kind) : M path :=
  lift (add_child scope id (mkNode k [])).

(** The default child of an L2 construct. *)
Definition resource_of (p : path) : path := p ++ ["Resource"].

(** *** [Duration] *)

(** [Duration.seconds(n)]: [new Duration(n, TimeUnit.Seconds)], which
    throws on a negative amount. *)
Definition Duration_seconds (n : Z) : result CdkError Duration :=
  if decide (n < 0)%Z then Err (NegativeDuration n) else Ok (mkDuration n Seconds).

(** [convert(amount, fromUnit, toUnit, { integral: true })]. *)
Definition convert (amt : Z) (from to : TimeUnit) : result CdkError Z :=
  if decide (inMillis from = inMillis to) then Ok amt
  else let num := (amt * inMillis from)%Z in
       if decide (num mod inMillis to = 0)%Z then Ok (num / inMillis to)%Z
       else Err (NonIntegralDuration amt from to).

Definition toSeconds (d : Duration) : result CdkError Z :=
  convert (amount d) (time_unit d) Seconds.

(** *** [cdk.Stack] *)

Definition is_alpha (c : ascii) : bool :=
  let n := nat_of_ascii c in (bool_decide (65 <= n <= 90) || bool_decide (97 <= n <= 122))%nat.

Definition is_alnum_dash (c : ascii) : bool :=
  let n := nat_of_ascii c in is_alpha c || bool_decide (48 <= n <= 57)%nat || bool_decide (c = dash).

Fixpoint all_alnum_dash (s : string) : bool :=
  match s with
  | EmptyString => true
  | String c s' => is_alnum_dash c && all_alnum_dash s'
  end.

(** [VALID_STACK_NAME_REGEX = /^[A-Za-z][A-Za-z0-9-]*$/]. *)
Definition valid_stack_name (s : string) : bool :=
  match s with
  | EmptyString => false
  | String c s' => is_alpha c && all_alnum_dash s'
  end.

(** The checks of the [Stack] constructor, in the order it makes them:
    the description is at most 512 characters, the stack name (the
    [stackName] prop, or the id for a stack directly under the [App]) at
    most 128 and matches the regular expression. *)
Definition stack_check (id : string) (props : StackProps) : option CdkError :=
  let name := default (sanitizeId id) (stackName props) in
  match description props with
  | Some d => if decide (512 < String.length d) then Some (InvalidStackDescription d)
              else None
  | None => None
  end
  ∪ (if decide (128 < String.length name) then Some (InvalidStackName name)
     else if valid_stack_name name then None else Some (InvalidStackName name)).

(** [super(scope, id, props)] for a stack directly under the [App]: the
    node is added first, then the checks run. *)
Definition Stack_new (id : string) (props : StackProps) : M path :=
  let! p := new_node [] id (KStack props) in
  match stack_check id props with
  | Some e => throw e
  | None => ret p
  end.

(** *** [iam.Role] *)

Record RoleProps : Type := mkRoleProps {
  assumedBy : Principal;
  managedPolicies : list ManagedPolicy;
}.

(** The [AWS::IAM::Role] the props render to. *)
Definition role_cfn (props : RoleProps) : CfnRole :=
  mkCfnRole (principal_services (assumedBy props)) (managedPolicies props).

Definition Role_new (scope : path) (id : string) (props : RoleProps) : M path :=
  let! p := new_node scope id KConstruct in
  let! _ := new_node p "Resource" (KRole (role_cfn props)) in
  ret p.

(** *** [lambda_nodejs.NodejsFunction] *)

Record NodejsFunctionProps : Type := mkNodejsFunctionProps {
  runtime : Runtime;
  entry : string;
  handler : option string;
  awsSdkConnectionReuse : option bool;
  memorySize : option Z;
  timeout : option Duration;
  role : option path;
}.

Fixpoint has_dot (s : string) : bool :=
  match s with
  | EmptyString => false
  | String c s' => bool_decide (c = "."%char) || has_dot s'
  end.

(** [handler.indexOf('.') !== -1 ? handler : `index.${handler}`]. *)
Definition nodejs_handler (h : option string) : string :=
  let h := default "handler" h in
  if has_dot h then h else "index." +:+ h.

(** [AWS_NODEJS_CONNECTION_REUSE_ENABLED=1] when connection reuse is on;
    it defaults to on only for runtimes with the SDK v2. *)
Definition connection_reuse_env (rt : Runtime) (reuse : option bool)
    : list (string * string) :=
  if default (runtime_has_sdk_v2 rt) reuse
  then [("AWS_NODEJS_CONNECTION_REUSE_ENABLED", "1")] else [].

(** The role a function gets when none is passed. *)
Definition lambdaServiceRoleProps : RoleProps :=
  mkRoleProps (ServicePrincipal "lambda.amazonaws.com")
              [AwsManagedPolicy "service-role/AWSLambdaBasicExecutionRole"].

(** [props.timeout && props.timeout.toSeconds()]. *)
Definition timeout_seconds (o : option Duration) : result CdkError (option Z) :=
  match o with
  | Some d => match toSeconds d with Ok s => Ok (Some s) | Err e => Err e end
  | None => Ok None
  end.

(** The [AWS::Lambda::Function] the props render to, given the role's
    resource and the timeout in seconds. *)
Definition function_cfn (props : NodejsFunctionProps) (roleL1 : path)
    (secs : option Z) : CfnFunction :=
  mkCfnFunction (runtime props) (nodejs_handler (handler props)) (entry props)
    (memorySize props) secs roleL1
    (connection_reuse_env (runtime props) (awsSdkConnectionReuse props)).

Definition NodejsFunction_new (scope : path) (id : string)
    (props : NodejsFunctionProps) : M path :=
  let! p := new_node scope id KConstruct in
  let! roleL1 := match role props with
                 | Some r => ret (resource_of r)
                 | None => let! r := Role_new p "ServiceRole" lambdaServiceRoleProps in
                           ret (resource_of r)
                 end in
  let! secs := of_result (timeout_seconds (timeout props)) in
  let! _ := new_node p "Resource" (KFunction (function_cfn props roleL1 secs)) in
  ret p.

(** *** [Function.currentVersion]: created on first use, then cached. *)
Definition currentVersion (fn : path) : M path :=
  fun t =>
    match find t (fn ++ ["CurrentVersion"]) with
    | Some _ => Ok (fn ++ ["CurrentVersion"], t)
    | None =>
        (let! v := new_node fn "CurrentVersion" KConstruct in
         let! _ := new_node v "Resource" (KVersion (mkCfnVersion (resource_of fn))) in
         ret v) t
    end.

(** *** [NagSuppressions.addResourceSuppressions] *)

(** A suppression for a rule already suppressed on the resource replaces
    the old entry; a new rule is appended. *)
Fixpoint upsert_suppression (s : NagPackSuppression) (l : list NagPackSuppression)
    : list NagPackSuppression :=
  match l with
  | [] => [s]
  | x :: l' => if decide (sup_id x = sup_id s) then s :: l'
               else x :: upsert_suppression s l'
  end.

Definition merge_suppressions (existing news : list NagPackSuppression)
    : list NagPackSuppression :=
  fold_left (fun acc s => upsert_suppression s acc) news existing.

Definition add_meta (sups : list NagPackSuppression) (n : Node) : Node :=
  mkNode (node_kind n) (merge_suppressions (node_meta n) sups).

(** [child.node.defaultChild ?? child]. *)
Definition default_child (t : Tree) (p : path) : path :=
  match find t (resource_of p) with Some _ => resource_of p | None => p end.

(** The body of the inner loop: the metadata goes on the L1 resource. *)
Definition suppress_at (sups : list NagPackSuppression) (p : path) : M unit :=
  fun t =>
    let l1 := default_child t p in
    match find t l1 with
    | Some n => if is_resource (node_kind n)
                then Ok (tt, update_node l1 (add_meta sups) t)
                else Ok (tt, t)
    | None => Ok (tt, t)
    end.

(** A suppression needs a reason of at least 10 characters. *)
Definition check_reason (s : NagPackSuppression) : M unit :=
  if decide (String.length (sup_reason s) < 10) then throw (ShortSuppressionReason (sup_id s))
  else ret tt.

(** [NagSuppressions.addResourceSuppressions(construct, suppressions,
    applyToChildren)]: for each construct, its whole subtree
    ([construct.node.findAll()]) when [applyToChildren], else the
    construct alone. *)
Definition addResourceSuppressions (constructs : list path)
    (sups : list NagPackSuppression) (applyToChildren : bool) : M unit :=
  match constructs with
  | [] => throw EmptySuppressionTargets
  | _ =>
      let! _ := for_each sups check_reason in
      for_each constructs (fun c t =>
        for_each (if applyToChildren then findAll PREORDER t c else [c]) (suppress_at sups) t)
  end.

(** ** Runs of the operations *)

Lemma sanitizeId_Resource : sanitizeId "Resource" = "Resource".
Proof. reflexivity. Qed.

Lemma sanitizeId_CurrentVersion : sanitizeId "CurrentVersion" = "CurrentVersion".
Proof. reflexivity. Qed.

Lemma sanitizeId_ServiceRole : sanitizeId "ServiceRole" = "ServiceRole".
Proof. reflexivity. Qed.

Lemma path_neq_snoc (p : path) x : p <> p ++ [x].
Proof. intros H. apply (f_equal length) in H. rewrite length_app in H. simpl in H. lia. Qed.

Lemma snoc_neq_nil (p : path) x : p ++ [x] <> [].
Proof. by destruct p. Qed.

#[export] Hint Resolve path_neq_snoc snoc_neq_nil : cdk.

(** Rewrite with the run [H] of the first computation of a [bind]. *)
Tactic Notation "step" open_constr(H) := erewrite (bind_ok_step _ _ _ _ _ H).

Section Runs.
Implicit Types (t : Tree) (scope p : path).

Lemma new_node_run scope id k t :
  id <> "" -> find t (scope ++ [sanitizeId id]) = None ->
  new_node scope id k t =
    Ok (scope ++ [sanitizeId id], (scope ++ [sanitizeId id], mkNode k []) :: t).
Proof.
  intros Hid Hf. unfold new_node, lift.
  by rewrite (proj2 (add_child_ok scope id _ t _ _) (conj Hid (conj Hf (conj eq_refl eq_refl)))).
Qed.

Lemma new_node_dup scope id k t :
  id <> "" -> is_Some (find t (scope ++ [sanitizeId id])) ->
  new_node scope id k t = Err (ConstructErr (DuplicateId scope (sanitizeId id))).
Proof.
  intros Hid Hf. unfold new_node, lift.
  by rewrite (proj2 (add_child_err scope id _ t _) (or_intror (conj Hid (conj Hf eq_refl)))).
Qed.

Lemma new_node_empty scope k t : new_node scope "" k t = Err (ConstructErr (EmptyId scope)).
Proof. reflexivity. Qed.

Lemma new_node_ok scope id k t p t' :
  new_node scope id k t = Ok (p, t') <->
  id <> "" /\ find t (scope ++ [sanitizeId id]) = None /\
  p = scope ++ [sanitizeId id] /\ t' = (p, mkNode k []) :: t.
Proof.
  unfold new_node, lift. rewrite <- add_child_ok.
  destruct (add_child scope id _ t) as [[??]|]; naive_solver.
Qed.

(** The default child of a node just added can always be added. *)
Lemma new_resource_run p k n t :
  wf t -> p <> [] -> find t p = None ->
  new_node p "Resource" k ((p, n) :: t) =
    Ok (resource_of p, (resource_of p, mkNode k []) :: (p, n) :: t).
Proof.
  intros Hwf Hp Hf. rewrite new_node_run, sanitizeId_Resource; [done|done|].
  rewrite sanitizeId_Resource, find_cons_ne by auto with cdk.
  by apply wf_child_fresh.
Qed.

(** A child, and a sibling of that child, of a node just added. *)
Lemma new_child_run p x k n t :
  wf t -> p <> [] -> find t p = None -> x <> "" -> sanitizeId x = x ->
  new_node p x k ((p, n) :: t) = Ok (p ++ [x], (p ++ [x], mkNode k []) :: (p, n) :: t).
Proof.
  intros Hwf Hp Hf Hx Hsx. rewrite new_node_run, Hsx; [done|done|].
  rewrite Hsx, find_cons_ne by auto with cdk. by apply wf_child_fresh.
Qed.

Lemma new_sibling_run p x y k n0 n1 t :
  wf t -> p <> [] -> find t p = None -> y <> "" -> sanitizeId y = y -> x <> y ->
  new_node p y k ((p ++ [x], n1) :: (p, n0) :: t) =
    Ok (p ++ [y], (p ++ [y], mkNode k []) :: (p ++ [x], n1) :: (p, n0) :: t).
Proof.
  intros Hwf Hp Hf Hy Hsy Hxy. rewrite new_node_run, Hsy; [done|done|].
  rewrite Hsy, !find_cons_ne; [by apply wf_child_fresh|auto with cdk|].
  intros H. apply app_inj_tail in H as [_ H]. congruence.
Qed.

Lemma Role_new_run scope id props t :
  wf t -> id <> "" -> find t (scope ++ [sanitizeId id]) = None ->
  Role_new scope id props t =
    Ok (scope ++ [sanitizeId id],
        (resource_of (scope ++ [sanitizeId id]), mkNode (KRole (role_cfn props)) [])
        :: (scope ++ [sanitizeId id], mkNode KConstruct []) :: t).
Proof.
  intros Hwf Hid Hf. unfold Role_new.
  step (new_node_run scope id KConstruct t Hid Hf).
  step (new_resource_run (scope ++ [sanitizeId id]) (KRole (role_cfn props))
          (mkNode KConstruct []) t Hwf (snoc_neq_nil _ _) Hf).
  done.
Qed.

Lemma Role_new_dup scope id props t :
  id <> "" -> is_Some (find t (scope ++ [sanitizeId id])) ->
  Role_new scope id props t = Err (ConstructErr (DuplicateId scope (sanitizeId id))).
Proof. intros Hid Hf. unfold Role_new. by rewrite (bind_err _ _ _ _ (new_node_dup _ _ _ _ Hid Hf)). Qed.
End Runs.

Lemma of_result_ok {A} (r : result CdkError A) a t : r = Ok a -> of_result r t = Ok (a, t).
Proof. by intros ->. Qed.

Lemma of_result_err {A} (r : result CdkError A) e t : r = Err e -> @of_result A r t = Err e.
Proof. by intros ->. Qed.

Section Runs2.
Implicit Types (t : Tree) (scope p : path).

Lemma NodejsFunction_new_run scope id props r secs t :
  wf t -> id <> "" -> find t (scope ++ [sanitizeId id]) = None ->
  role props = Some r -> timeout_seconds (timeout props) = Ok secs ->
  NodejsFunction_new scope id props t =
    Ok (scope ++ [sanitizeId id],
        (resource_of (scope ++ [sanitizeId id]),
         mkNode (KFunction (function_cfn props (resource_of r) secs)) [])
        :: (scope ++ [sanitizeId id], mkNode KConstruct []) :: t).
Proof.
  intros Hwf Hid Hf Hr Hs. unfold NodejsFunction_new.
  step (new_node_run scope id KConstruct t Hid Hf). rewrite Hr, bind_ret_l.
  step (of_result_ok _ _ ((scope ++ [sanitizeId id], mkNode KConstruct []) :: t) Hs).
  by step (new_resource_run (scope ++ [sanitizeId id])
             (KFunction (function_cfn props (resource_of r) secs)) _ t Hwf
             (snoc_neq_nil _ _) Hf).
Qed.

Lemma NodejsFunction_new_timeout_err scope id props r e t :
  id <> "" -> find t (scope ++ [sanitizeId id]) = None ->
  role props = Some r -> timeout_seconds (timeout props) = Err e ->
  NodejsFunction_new scope id props t = Err e.
Proof.
  intros Hid Hf Hr Hs. unfold NodejsFunction_new.
  step (new_node_run scope id KConstruct t Hid Hf). rewrite Hr, bind_ret_l.
  by rewrite (bind_err _ _ _ _ (of_result_err _ _ _ Hs)).
Qed.

Lemma currentVersion_run fn t :
  wf t -> fn <> [] -> find t (fn ++ ["CurrentVersion"]) = None ->
  currentVersion fn t =
    Ok (fn ++ ["CurrentVersion"],
        (resource_of (fn ++ ["CurrentVersion"]),
         mkNode (KVersion (mkCfnVersion (resource_of fn))) [])
        :: (fn ++ ["CurrentVersion"], mkNode KConstruct []) :: t).
Proof.
  intros Hwf Hfn Hf. unfold currentVersion. rewrite Hf.
  rewrite <- sanitizeId_CurrentVersion in Hf |- *.
  step (new_node_run fn "CurrentVersion" KConstruct t ltac:(done) Hf).
  by step (new_resource_run (fn ++ [sanitizeId "CurrentVersion"])
             (KVersion (mkCfnVersion (resource_of fn))) _ t Hwf
             (snoc_neq_nil _ _) Hf).
Qed.

Lemma currentVersion_cached fn t :
  is_Some (find t (fn ++ ["CurrentVersion"])) ->
  currentVersion fn t = Ok (fn ++ ["CurrentVersion"], t).
Proof. intros [n Hn]. unfold currentVersion. by rewrite Hn. Qed.

Lemma Stack_new_run id props t :
  id <> "" -> find t [sanitizeId id] = None -> stack_check id props = None ->
  Stack_new id props t =
    Ok ([sanitizeId id], ([sanitizeId id], mkNode (KStack props) []) :: t).
Proof.
  intros Hid Hf Hc. unfold Stack_new.
  step (new_node_run [] id (KStack props) t Hid Hf). by rewrite Hc.
Qed.

Lemma Stack_new_check_err id props t e :
  id <> "" -> find t [sanitizeId id] = None -> stack_check id props = Some e ->
  Stack_new id props t = Err e.
Proof.
  intros Hid Hf Hc. unfold Stack_new.
  step (new_node_run [] id (KStack props) t Hid Hf). by rewrite Hc.
Qed.

Lemma Stack_new_dup id props t :
  id <> "" -> is_Some (find t [sanitizeId id]) ->
  Stack_new id props t = Err (ConstructErr (DuplicateId [] (sanitizeId id))).
Proof.
  intros Hid Hf. unfold Stack_new.
  by rewrite (bind_err _ _ _ _ (new_node_dup [] id _ t Hid Hf)).
Qed.
End Runs2.

(** ** Merging suppressions *)

Section Merge.
Implicit Types (s : NagPackSuppression) (l acc S : list NagPackSuppression).

End Merge.

(** ** The invariant: a well-formed tree whose references point back *)

Definition Inv (t : Tree) : Prop := wf t /\ refs_earlier node_refs t.

(** Nodes are never removed. *)
Definition grows (t t' : Tree) : Prop :=
  forall q, is_Some (find t q) -> is_Some (find t' q).

#[export] Instance grows_preorder : PreOrder grows.
Proof. split; [by intros t q|]. intros t1 t2 t3 H12 H23 q Hq. by apply H23, H12. Qed.

Definition all_found (t : Tree) (l : list path) : Prop :=
  Forall (fun r => is_Some (find t r)) l.

Lemma all_found_grows (t t' : Tree) l : grows t t' -> all_found t l -> all_found t' l.
Proof. intros Hg H. eapply Forall_impl; [exact H|]. intros r. apply Hg. Qed.

Lemma scope_exists_grows (t t' : Tree) s : grows t t' -> scope_exists t s -> scope_exists t' s.
Proof. intros Hg [|]; [by left|right; by apply Hg]. Qed.

Lemma scope_exists_found (t : Tree) p n : find t p = Some n -> scope_exists t p.
Proof. intros H. right. by rewrite H. Qed.

Lemma all_found_one (t : Tree) r : is_Some (find t r) -> all_found t [r].
Proof. intros H. by constructor. Qed.

#[export] Hint Resolve all_found_grows scope_exists_grows scope_exists_found all_found_one : cdk.

Lemma find_update_meta sups l t q :
  find (update_node l (add_meta sups) t) q =
    if decide (l = q) then add_meta sups <$> find t q else find t q.
Proof.
  case_decide as Hl; [subst; apply find_update_node_eq|by apply find_update_node_ne].
Qed.

(** *** References name resources of the expected type *)

(** The reference [r], held by a node of kind [k], names a node of [t]
    whose kind [P k] accepts. *)
Definition ref_ok (P : Kind -> Kind -> bool) (t : Tree) (k : Kind) (r : path) : Prop :=
  exists m, find t r = Some m /\ P k (node_kind m) = true.

(** Every reference of every node names a node [P] accepts. *)
Definition refs_to (P : Kind -> Kind -> bool) (t : Tree) : Prop :=
  forall p n, find t p = Some n -> Forall (ref_ok P t (node_kind n)) (node_refs n).

(** [r] is a CloudFormation resource of [t]: a [Ref] or [Fn::GetAtt] to
    it is a dependency edge of the template. *)
Definition res_found (t : Tree) (r : path) : Prop :=
  exists m, find t r = Some m /\ is_resource (node_kind m) = true.

(** Every reference names a resource. *)
Definition refs_resources : Tree -> Prop := refs_to (fun _ target => is_resource target).

Section RefsTo.
Variable P : Kind -> Kind -> bool.
Implicit Types (t : Tree) (k : Kind) (n : Node).

Lemma refs_to_nil : refs_to P [].
Proof. by intros p n. Qed.

Lemma ref_ok_cons t q n k r : find t q = None -> ref_ok P t k r -> ref_ok P ((q, n) :: t) k r.
Proof.
  intros Hq (m & Hm & Hk). exists m. split; [|done].
  rewrite find_cons_ne; [done|]. intros ->. congruence.
Qed.

(** A fresh node whose references are accepted keeps the property. *)
Lemma refs_to_cons t q n :
  refs_to P t -> find t q = None -> Forall (ref_ok P t (node_kind n)) (node_refs n) ->
  refs_to P ((q, n) :: t).
Proof.
  intros Ht Hq Hn p n'. simpl. case_decide as Hp.
  - intros [= <-]. eapply Forall_impl; [exact Hn|]. intros r. by apply ref_ok_cons.
  - intros Hf. eapply Forall_impl; [exact (Ht p n' Hf)|]. intros r. by apply ref_ok_cons.
Qed.

(** Metadata changes no kind and no reference. *)
Lemma refs_to_update sups l t :
  refs_to P t -> refs_to P (update_node l (add_meta sups) t).
Proof.
  intros Ht p n. rewrite find_update_meta. intros Hf.
  assert (Hn : exists n0, find t p = Some n0 /\ node_kind n = node_kind n0 /\
                          node_refs n = node_refs n0).
  { case_decide; [destruct (find t p) as [n0|]; simpl in Hf; simplify_eq; by eauto|by eauto]. }
  destruct Hn as (n0 & Hn0 & -> & ->).
  eapply Forall_impl; [exact (Ht p n0 Hn0)|]. intros r (m & Hm & Hk).
  unfold ref_ok. rewrite find_update_meta.
  destruct (decide (l = r)); rewrite Hm; (eexists; split; [reflexivity|exact Hk]).
Qed.

Lemma new_node_refs scope id k t p t' :
  refs_to P t -> Forall (ref_ok P t k) (kind_refs k) ->
  new_node scope id k t = Ok (p, t') -> refs_to P t'.
Proof. intros Ht Hk (_ & Hf & -> & ->)%new_node_ok. by apply refs_to_cons. Qed.

(** The node just created is a target [P] accepts for [k0]. *)
Lemma new_node_ref_ok scope id k0 k t p t' :
  P k0 k = true -> new_node scope id k t = Ok (p, t') -> ref_ok P t' k0 p.
Proof. intros Hk (_ & _ & -> & ->)%new_node_ok. exists (mkNode k []). by rewrite find_cons_eq. Qed.

End RefsTo.

#[export] Hint Resolve refs_to_nil refs_to_update : cdk.

Section InvLemmas.
Implicit Types (t : Tree) (scope p : path).

Lemma new_node_inv scope id k t p t' :
  Inv t -> scope_exists t scope -> all_found t (kind_refs k) ->
  new_node scope id k t = Ok (p, t') ->
  Inv t' /\ grows t t' /\ p = scope ++ [sanitizeId id] /\ find t' p = Some (mkNode k []).
Proof.
  intros [Hwf Hre] Hs Hk Hrun. unfold new_node, lift in Hrun.
  destruct (add_child scope id _ t) as [[p' t'']|e] eqn:Hadd; [|done].
  injection Hrun as <- <-.
  pose proof Hadd as (_ & _ & -> & ->)%add_child_ok.
  split_and!; [| |done|apply find_cons_eq].
  - split; [exact (add_child_wf _ _ _ _ _ _ Hwf Hs Hadd)|exact (add_child_refs_earlier node_refs scope id (mkNode k []) t _ _ Hre Hk Hadd)].
  - intros q. apply find_cons_is_Some.
Qed.

(** Adding the default child of a node that exists. *)
Lemma new_resource_inv p k t q t' :
  Inv t -> is_Some (find t p) -> all_found t (kind_refs k) ->
  new_node p "Resource" k t = Ok (q, t') ->
  Inv t' /\ grows t t' /\ q = resource_of p /\ find t' q = Some (mkNode k []).
Proof.
  intros HI [n Hn] Hk Hrun.
  destruct (new_node_inv _ _ _ _ _ _ HI (scope_exists_found _ _ _ Hn) Hk Hrun)
    as (? & ? & -> & ?).
  by rewrite sanitizeId_Resource in *.
Qed.

Lemma Role_new_inv scope id props t p t' :
  Inv t -> scope_exists t scope -> Role_new scope id props t = Ok (p, t') ->
  Inv t' /\ grows t t' /\ p = scope ++ [sanitizeId id] /\
  find t' (resource_of p) = Some (mkNode (KRole (role_cfn props)) []).
Proof.
  intros HI Hs Hrun. unfold Role_new in Hrun.
  inv_bind Hrun. inv_bind Hrun. injection Hrun as <- <-.
  destruct (new_node_inv scope id KConstruct t _ _ HI Hs (Forall_nil_2 _) Hm)
    as (HI1 & Hg1 & -> & Hf1).
  destruct (new_resource_inv _ (KRole (role_cfn props)) _ _ _ HI1 (mk_is_Some _ _ Hf1)
              (Forall_nil_2 _) Hm0)
    as (HI2 & Hg2 & -> & Hf2).
  split_and!; [done| |done|done]. by etrans.
Qed.

Lemma of_result_inv {A} (r : result CdkError A) a t t' :
  of_result r t = Ok (a, t') -> r = Ok a /\ t' = t.
Proof. destruct r; simpl; [|done]. by intros [= -> ->]. Qed.

Lemma NodejsFunction_new_inv scope id props t p t' :
  Inv t -> scope_exists t scope ->
  (forall r, role props = Some r -> is_Some (find t (resource_of r))) ->
  NodejsFunction_new scope id props t = Ok (p, t') ->
  Inv t' /\ grows t t' /\ p = scope ++ [sanitizeId id] /\
  exists roleL1 secs,
    timeout_seconds (timeout props) = Ok secs /\
    (forall r, role props = Some r -> roleL1 = resource_of r) /\
    find t' (resource_of p) = Some (mkNode (KFunction (function_cfn props roleL1 secs)) []).
Proof.
  intros HI Hs Hrole Hrun. unfold NodejsFunction_new in Hrun.
  apply bind_ok in Hrun as (p0 & s1 & H1 & Hrun).
  destruct (new_node_inv scope id KConstruct t _ _ HI Hs (Forall_nil_2 _) H1)
    as (HI1 & Hg1 & -> & Hf1).
  apply bind_ok in Hrun as (rl & s2 & H2 & Hrun).
  apply bind_ok in Hrun as (secs & s3 & H3 & Hrun). apply of_result_inv in H3 as [Hsecs ->].
  apply bind_ok in Hrun as (q & s4 & H4 & Hrun). injection Hrun as <- <-.
  assert (Inv s2 /\ grows s1 s2 /\ is_Some (find s2 rl) /\
            (forall r, role props = Some r -> rl = resource_of r)) as (HI2 & Hg2 & Hrl & Hrl').
  { destruct (role props) as [r|] eqn:Hr.
    - injection H2 as <- <-. split_and!; try done.
      + apply Hg1, Hrole, eq_refl.
      + by intros ? [= <-].
    - apply bind_ok in H2 as (r & s5 & H5 & H2). injection H2 as <- <-.
      destruct (Role_new_inv _ _ _ _ _ _ HI1 (scope_exists_found _ _ _ Hf1) H5)
        as (HI2 & Hg2 & _ & Hf2).
      split_and!; try done; by rewrite Hf2. }
  destruct (new_resource_inv _ (KFunction (function_cfn props rl secs)) _ _ _ HI2
              (Hg2 _ (mk_is_Some _ _ Hf1)) (all_found_one _ _ Hrl) H4)
    as (HI3 & Hg3 & -> & Hf3).
  split_and!; [done| |done|]; [by do 2 etrans|eauto].
Qed.

Lemma currentVersion_inv fn t v t' :
  Inv t -> is_Some (find t fn) -> is_Some (find t (resource_of fn)) ->
  currentVersion fn t = Ok (v, t') ->
  Inv t' /\ grows t t' /\ v = fn ++ ["CurrentVersion"].
Proof.
  intros HI [n Hn] Hres Hrun. unfold currentVersion in Hrun.
  destruct (find t (fn ++ ["CurrentVersion"])).
  - by injection Hrun as <- <-.
  - inv_bind Hrun. inv_bind Hrun. injection Hrun as <- <-.
    destruct (new_node_inv fn "CurrentVersion" KConstruct t _ _ HI
                (scope_exists_found _ _ _ Hn) (Forall_nil_2 _) Hm) as (HI1 & Hg1 & -> & Hf1).
    destruct (new_resource_inv _ (KVersion (mkCfnVersion (resource_of fn))) _ _ _ HI1
                (mk_is_Some _ _ Hf1) (all_found_one _ _ (Hg1 _ Hres)) Hm0)
      as (HI2 & Hg2 & _ & _).
    split_and!; [done|by etrans|done].
Qed.

(** Metadata does not change what a node refers to. *)
Lemma update_meta_inv p sups t :
  Inv t -> Inv (update_node p (add_meta sups) t) /\ grows t (update_node p (add_meta sups) t).
Proof.
  intros [Hwf Hre]. unfold Inv. split_and!.
  - by apply update_node_wf.
  - by apply update_node_refs_earlier.
  - intros q. by rewrite find_update_node_is_Some.
Qed.

Lemma suppress_at_inv sups p t u t' :
  Inv t -> suppress_at sups p t = Ok (u, t') -> Inv t' /\ grows t t'.
Proof.
  intros HI Hrun. unfold suppress_at in Hrun.
  destruct (find t _) as [n|]; [destruct (is_resource _)|];
    injection Hrun as <- <-; [by apply update_meta_inv|done..].
Qed.

Lemma check_reasons_state sups t u s : for_each sups check_reason t = Ok (u, s) -> s = t.
Proof.
  revert t. induction sups as [|x sups IH]; intros t0 Hm; simpl in Hm.
  - by injection Hm as _ <-.
  - inv_bind Hm. unfold check_reason in Hm0. case_decide; [done|].
    injection Hm0 as <- <-. by apply IH.
Qed.

Lemma addResourceSuppressions_inv cs sups b t u t' :
  Inv t -> addResourceSuppressions cs sups b t = Ok (u, t') -> Inv t' /\ grows t t'.
Proof.
  intros HI Hrun. unfold addResourceSuppressions in Hrun.
  destruct cs as [|c cs]; [done|]. inv_bind Hrun.
  apply check_reasons_state in Hm. subst s. destruct u.
  refine (for_each_preserves (fun s => Inv s /\ grows t s) (c :: cs) _ _ t t' _ Hrun);
    [|split; [done|reflexivity]].
  intros x s s' _ [HIs Hgs] Hx.
  refine (for_each_preserves (fun s' => Inv s' /\ grows t s') _ (suppress_at sups) _ s s' _ Hx);
    [|done].
  intros y r r' _ [HIr Hgr] Hy. destruct (suppress_at_inv _ _ _ _ _ HIr Hy). split; [done|by etrans].
Qed.

Lemma Stack_new_inv id props t p t' :
  Inv t -> Stack_new id props t = Ok (p, t') ->
  Inv t' /\ grows t t' /\ p = [sanitizeId id] /\ find t' p = Some (mkNode (KStack props) []).
Proof.
  intros HI Hrun. unfold Stack_new in Hrun.
  apply bind_ok in Hrun as (q & t1 & H1 & Hrun).
  destruct (stack_check id props); [done|]. injection Hrun as <- <-.
  exact (new_node_inv [] id (KStack props) t _ _ HI (or_introl eq_refl) (Forall_nil_2 _) H1).
Qed.
End InvLemmas.

(** ** The suppressions of an L2 construct and its children *)

Lemma check_reasons_ok sups t :
  Forall (fun s => 10 <= String.length (sup_reason s)) sups ->
  for_each sups check_reason t = Ok (tt, t).
Proof.
  induction 1 as [|s sups Hs _ IH]; [done|]. simpl. unfold check_reason.
  rewrite decide_False by lia. by rewrite bind_ret_l.
Qed.

Lemma suppress_at_default sups c n t :
  find t (resource_of c) = Some n -> is_resource (node_kind n) = true ->
  suppress_at sups c t = Ok (tt, update_node (resource_of c) (add_meta sups) t).
Proof. intros Hn Hk. unfold suppress_at, default_child. by rewrite Hn, Hn, Hk. Qed.

Lemma suppress_at_self sups p n t :
  find t (resource_of p) = None -> find t p = Some n -> is_resource (node_kind n) = true ->
  suppress_at sups p t = Ok (tt, update_node p (add_meta sups) t).
Proof. intros Hr Hn Hk. unfold suppress_at, default_child. by rewrite Hr, Hn, Hk. Qed.

(** *** The order of the walk does not matter *)

(** The resource [suppress_at sups p] writes to, if any. *)
Definition suppress_target (t : Tree) (p : path) : option path :=
  let l1 := default_child t p in
  match find t l1 with
  | Some n => if is_resource (node_kind n) then Some l1 else None
  | None => None
  end.

Definition sup_upd (sups : list NagPackSuppression) (t : Tree) (p : path) : Tree :=
  match suppress_target t p with
  | Some l => update_node l (add_meta sups) t
  | None => t
  end.

Lemma suppress_at_upd sups p t : suppress_at sups p t = Ok (tt, sup_upd sups t p).
Proof.
  unfold suppress_at, sup_upd, suppress_target.
  destruct (find t _) as [n|]; [destruct (is_resource _)|]; reflexivity.
Qed.

(** Writing metadata adds or removes no node. *)
Lemma default_child_update l f t p : default_child (update_node l f t) p = default_child t p.
Proof.
  unfold default_child. pose proof (find_update_node_is_Some l f t (resource_of p)) as H.
  revert H. destruct (find (update_node l f t) _), (find t _); intros H; try done;
    exfalso; apply (is_Some_None (A:=Node)), H; eauto.
Qed.

(** Writing metadata changes no node's kind, so no later target. *)
Lemma suppress_target_update sups l t p :
  suppress_target (update_node l (add_meta sups) t) p = suppress_target t p.
Proof.
  unfold suppress_target. rewrite default_child_update, find_update_meta.
  case_decide; [|done]. by destruct (find t _).
Qed.

Lemma suppress_target_sup_upd sups t q p :
  suppress_target (sup_upd sups t q) p = suppress_target t p.
Proof. unfold sup_upd. destruct (suppress_target t q); [apply suppress_target_update|done]. Qed.

Lemma sup_upd_comm sups t x y :
  sup_upd sups (sup_upd sups t x) y = sup_upd sups (sup_upd sups t y) x.
Proof.
  unfold sup_upd at 1 3. rewrite !suppress_target_sup_upd. unfold sup_upd.
  destruct (suppress_target t x), (suppress_target t y); try done. apply update_node_comm.
Qed.

(** The loop writes the same tree whatever the order of the nodes. *)
Lemma for_each_suppress_perm sups l l' t :
  l ≡ₚ l' -> for_each l (suppress_at sups) t = for_each l' (suppress_at sups) t.
Proof.
  intros Hp. revert t. induction Hp as [|x l l' _ IH|x y l|l l' l'' _ IH1 _ IH2]; intros t.
  - done.
  - cbn [for_each]. rewrite (bind_ok_step _ _ _ _ _ (suppress_at_upd sups x t)).
    rewrite (bind_ok_step _ _ _ _ _ (suppress_at_upd sups x t)). apply IH.
  - cbn [for_each]. rewrite (bind_ok_step _ _ _ _ _ (suppress_at_upd sups y t)).
    rewrite (bind_ok_step _ _ _ _ _ (suppress_at_upd sups x t)). cbn [for_each].
    rewrite (bind_ok_step _ _ _ _ _ (suppress_at_upd sups x _)).
    rewrite (bind_ok_step _ _ _ _ _ (suppress_at_upd sups y _)). by rewrite sup_upd_comm.
  - by rewrite IH1, IH2.
Qed.

Lemma for_each_findAll_suppress sups o t c :
  wf t -> c ∈ map fst t ->
  for_each (findAll o t c) (suppress_at sups) t = for_each (find_all t c) (suppress_at sups) t.
Proof. intros Hwf Hc. by apply for_each_suppress_perm, findAll_perm. Qed.

(** [addResourceSuppressions([c], sups, true)] when the subtree of [c] is
    [c] and its resource: the resource is reached twice, once as the
    default child of [c] and once as a child of [c]. *)
Lemma addResourceSuppressions_l2_run c n sups t :
  wf t -> c ∈ map fst t -> find_all t c = [c; resource_of c] ->
  find t (resource_of c) = Some n -> is_resource (node_kind n) = true ->
  find t (resource_of (resource_of c)) = None ->
  Forall (fun s => 10 <= String.length (sup_reason s)) sups ->
  addResourceSuppressions [c] sups true t =
    Ok (tt, update_node (resource_of c) (add_meta sups)
              (update_node (resource_of c) (add_meta sups) t)).
Proof.
  intros Hwf Hc Hall Hres Hk Hrr Hsups. unfold addResourceSuppressions.
  step (check_reasons_ok sups t Hsups).
  assert (Hin : for_each (find_all t c) (suppress_at sups) t =
                Ok (tt, update_node (resource_of c) (add_meta sups)
                          (update_node (resource_of c) (add_meta sups) t))).
  { rewrite Hall. simpl. step (suppress_at_default sups c n t Hres Hk).
    step (suppress_at_self sups (resource_of c) (add_meta sups n) _
            ltac:(by rewrite find_update_node_ne by apply path_neq_snoc)
            ltac:(by rewrite find_update_node_eq, Hres) Hk).
    done. }
  rewrite <- (for_each_findAll_suppress sups PREORDER t c Hwf Hc) in Hin.
  simpl. by rewrite (bind_ok_step (fun t0 => for_each (findAll PREORDER t0 c) (suppress_at sups) t0)
                      _ t _ _ Hin).
Qed.

(** ** Properties of the library calls *)

(** [Function.currentVersion] creates the version once and caches
    it: a second access returns the same version and changes nothing, so
    there are never two versions of one function. *)
Lemma currentVersion_twice fn t v t' :
  currentVersion fn t = Ok (v, t') ->
  (let! v1 := currentVersion fn in let! v2 := currentVersion fn in ret (v1, v2)) t =
    Ok ((v, v), t').
Proof.
  intros Hrun. step Hrun.
  assert (Hv : v = fn ++ ["CurrentVersion"] /\ is_Some (find t' (fn ++ ["CurrentVersion"]))).
  { unfold currentVersion in Hrun. destruct (find t _) eqn:E.
    - injection Hrun as <- <-. by rewrite E.
    - apply bind_ok in Hrun as (w & t1 & H1 & Hrun). apply bind_ok in Hrun as (r & t2 & H2 & Hrun).
      injection Hrun as <- <-.
      apply new_node_ok in H1 as (_ & _ & -> & ->). apply new_node_ok in H2 as (_ & _ & _ & ->).
      rewrite sanitizeId_CurrentVersion. split; [done|].
      apply find_cons_is_Some. by rewrite find_cons_eq. }
  destruct Hv as [-> Hf]. by step (currentVersion_cached fn t' Hf).
Qed.

(** [Stack_new] succeeds exactly when the id is non-empty and free at
    the root and the props pass the stack checks. *)
Lemma Stack_new_ok id props t p t' :
  Stack_new id props t = Ok (p, t') <->
  id <> "" /\ find t [sanitizeId id] = None /\ stack_check id props = None /\
  p = [sanitizeId id] /\ t' = ([sanitizeId id], mkNode (KStack props) []) :: t.
Proof.
  split.
  - intros Hrun. unfold Stack_new in Hrun. apply bind_ok in Hrun as (q & t1 & H1 & Hrun).
    unfold new_node, lift in H1. destruct (add_child _ _ _ t) as [[q' t1']|] eqn:A; [|done].
    injection H1 as <- <-. apply add_child_ok in A as (Hid & Hf & -> & ->).
    destruct (stack_check id props); [done|]. injection Hrun as <- <-. done.
  - intros (Hid & Hf & Hc & -> & ->). by apply Stack_new_run.
Qed.

(** The [Stack] constructor throws exactly in these three cases:
    an empty id, an id already used under the [App], or props that fail a
    stack check (description length, stack name length and pattern). *)
Lemma Stack_new_err id props t e :
  Stack_new id props t = Err e <->
  (id = "" /\ e = ConstructErr (EmptyId [])) \/
  (id <> "" /\ is_Some (find t [sanitizeId id]) /\
   e = ConstructErr (DuplicateId [] (sanitizeId id))) \/
  (id <> "" /\ find t [sanitizeId id] = None /\ stack_check id props = Some e).
Proof.
  destruct (decide (id = "")) as [->|Hid].
  { unfold Stack_new. rewrite (bind_err _ _ _ _ (new_node_empty _ _ _)). naive_solver. }
  destruct (find t [sanitizeId id]) as [n|] eqn:Hf.
  - rewrite Stack_new_dup by (done || by rewrite Hf). naive_solver.
  - destruct (stack_check id props) as [e'|] eqn:Hc.
    + rewrite (Stack_new_check_err id props t e' Hid Hf Hc). naive_solver.
    + rewrite Stack_new_run by done. split; [done|]. intros [|[|]]; naive_solver.
Qed.

Lemma Inv_nil : Inv [].
Proof. split; constructor. Qed.

Lemma currentVersion_twice_witness :
  exists r, currentVersion ["S"; "F"] [(["S"; "F"; "Resource"], mkNode KConstruct []);
                                       (["S"; "F"], mkNode KConstruct []); (["S"], mkNode KConstruct [])] = Ok r /\
  (let! v1 := currentVersion ["S"; "F"] in let! v2 := currentVersion ["S"; "F"] in ret (v1, v2))
    [(["S"; "F"; "Resource"], mkNode KConstruct []);
     (["S"; "F"], mkNode KConstruct []); (["S"], mkNode KConstruct [])] = Ok ((r.1, r.1), r.2).
Proof.
  eexists. split; [vm_compute; reflexivity|].
  apply currentVersion_twice. vm_compute. reflexivity.
Defined.

