(* ===== verification/Waf.v ===== *)
(** * The repository's [Waf] construct ([./constructs/waf])

    [src/lib/us-region-stack.ts] (lines 25-29) creates
    [new Waf(this, `${id}-CloudFrontFireWall`, { allowedIps, useCloudFront })]
    and reads [wafv2.webAcl.attrArn].  The construct's source is not under
    [src/]: the stack depends only on what the spec says of it, stated
    here as the typeclass [WafConstruct], "the produced firewall
    description references exactly that allow-list and is configured for
    CDN-edge use; all other addresses are denied":
    - [Waf_new_run]: under a well-formed tree and a fresh id, the construct
      adds nodes below its own path only, keeps the invariant, and its
      [webAcl] is a web ACL of scope [CLOUDFRONT] (when [useCloudFront])
      that blocks by default, has allow rules only, and admits exactly
      [allowedIps] ([acl_enforces]; [WafEval] turns this into the action
      for each source address);
    - [Waf_new_err]: it fails only as the construct tree makes any
      construct fail (empty or duplicate id);
    - [Waf_new_inv]: every successful run keeps the invariant;
    - [Waf_new_refs]: the only reference it adds is from the web ACL's
      rule to an IP set, so any typing of references that accepts that
      edge ([refs_to P]) is kept.
    The stack's theorems ([UsRegionStack]) are proved against this class.
    [WafSpec] is an instance modelled from the spec (an IP set and a web
    ACL with one allow rule on it); the child ids it uses are the model's. *)

From S2P Require Import Prelude Constructs CdkLib.

Record WafProps : Type := mkWafProps {
  allowedIps : list string;
  useCloudFront : bool;
}.

(** A [Waf] handle: [wafv2.webAcl], the [AWS::WAFv2::WebACL] node. *)
Record Waf : Type := mkWaf { webAcl : path }.

(** A CloudFormation attribute reference ([Fn::GetAtt]). *)
Record Token : Type := GetAtt { att_target : path; att_name : string }.

(** [webAcl.attrArn]. *)
Definition attrArn (acl : path) : Token := GetAtt acl "Arn".

Definition waf_scope (cloudFront : bool) : string :=
  if cloudFront then "CLOUDFRONT" else "REGIONAL".

(** The addresses the allow rules of a web ACL admit, read through the
    IP sets they reference in [t]. *)
Definition acl_allowlist (t : Tree) (acl : CfnWebACL) : list string :=
  concat (map (fun r => match rule_action r, find t (rule_ipset r) with
                        | Allow, Some (mkNode (KIPSet s) _) => ipset_addresses s
                        | _, _ => []
                        end) (acl_rules acl)).

(** The node [p] of [t] is a web ACL for [scope] that blocks by default,
    has allow rules only, and admits exactly [ips]. *)
Definition acl_enforces (t : Tree) (p : path) (scope : string) (ips : list string) : Prop :=
  exists acl meta, find t p = Some (mkNode (KWebACL acl) meta) /\
    acl_scope acl = scope /\ acl_defaultAction acl = Block /\
    Forall (fun r => rule_action r = Allow) (acl_rules acl) /\ acl_allowlist t acl = ips.

Lemma acl_allowlist_ext (t t' : Tree) acl :
  (forall r, In r (acl_rules acl) -> find t (rule_ipset r) = find t' (rule_ipset r)) ->
  acl_allowlist t acl = acl_allowlist t' acl.
Proof. intros Hr. unfold acl_allowlist. f_equal. apply map_ext_in. intros r Hin. by rewrite Hr. Qed.

(** What a web ACL enforces is kept by any extension of the tree that
    keeps the nodes already there: its rules refer to earlier nodes. *)
Lemma acl_enforces_stable (t t' : Tree) p scope ips :
  refs_earlier node_refs t -> (forall q, is_Some (find t q) -> find t' q = find t q) ->
  acl_enforces t p scope ips -> acl_enforces t' p scope ips.
Proof.
  intros Hre Hold (acl & meta & Hacl & Hsc & Hdef & Hall & Hallow).
  exists acl, meta. rewrite Hold by (by rewrite Hacl). split_and!; try done.
  rewrite <- Hallow. symmetry. apply acl_allowlist_ext. intros r Hr. symmetry. apply Hold.
  pose proof (refs_earlier_found _ _ _ _ Hre Hacl) as Hrefs. simpl in Hrefs.
  rewrite Forall_forall in Hrefs. apply Hrefs, list_elem_of_In. simpl. by apply in_map.
Qed.

Class WafConstruct : Type := {
  Waf_new : path -> string -> WafProps -> M Waf;
  Waf_new_run : forall scope id props t,
    Inv t -> scope_exists t scope -> id <> "" -> find t (scope ++ [sanitizeId id]) = None ->
    exists w added,
      Waf_new scope id props t = Ok (w, added ++ t) /\
      Inv (added ++ t) /\
      Forall (fun pv => (scope ++ [sanitizeId id]) `prefix_of` pv.1) added /\
      acl_enforces (added ++ t) (webAcl w) (waf_scope (useCloudFront props)) (allowedIps props);
  Waf_new_err : forall scope id props t e,
    Inv t -> scope_exists t scope -> Waf_new scope id props t = Err e ->
    (id = "" /\ e = ConstructErr (EmptyId scope)) \/
    (id <> "" /\ is_Some (find t (scope ++ [sanitizeId id])) /\
     e = ConstructErr (DuplicateId scope (sanitizeId id)));
  Waf_new_inv : forall scope id props t w t',
    Inv t -> scope_exists t scope -> Waf_new scope id props t = Ok (w, t') ->
    Inv t' /\ grows t t';
  Waf_new_refs : forall P scope id props t w t',
    (forall a s, P (KWebACL a) (KIPSet s) = true) ->
    refs_to P t -> Waf_new scope id props t = Ok (w, t') -> refs_to P t';
}.

(** ** An instance modelled from the spec *)

Definition Waf_spec_new (scope : path) (id : string) (props : WafProps) : M Waf :=
  let sc := waf_scope (useCloudFront props) in
  let! w := new_node scope id KConstruct in
  let! ipset := new_node w "AllowedIpSet" (KIPSet (mkCfnIPSet sc (allowedIps props))) in
  let! acl := new_node w "WebAcl"
                (KWebACL (mkCfnWebACL sc Block [mkWafRule "AllowedIps" 0 Allow ipset])) in
  ret (mkWaf acl).

Lemma snoc_neq (p : path) (a b : string) : a <> b -> p ++ [a] <> p ++ [b].
Proof. intros Hab H. apply app_inj_tail in H as [_ H]. congruence. Qed.

#[export] Hint Resolve snoc_neq : cdk.

Section WafSpecProofs.
Implicit Types (t : Tree) (scope : path).

Definition waf_spec_ipset (props : WafProps) : Kind :=
  KIPSet (mkCfnIPSet (waf_scope (useCloudFront props)) (allowedIps props)).

Definition waf_spec_acl (props : WafProps) (ipset : path) : Kind :=
  KWebACL (mkCfnWebACL (waf_scope (useCloudFront props)) Block
             [mkWafRule "AllowedIps" 0 Allow ipset]).

Lemma Waf_spec_new_run scope id props t :
  wf t -> id <> "" -> find t (scope ++ [sanitizeId id]) = None ->
  let w := scope ++ [sanitizeId id] in
  Waf_spec_new scope id props t =
    Ok (mkWaf (w ++ ["WebAcl"]),
        [(w ++ ["WebAcl"], mkNode (waf_spec_acl props (w ++ ["AllowedIpSet"])) []);
         (w ++ ["AllowedIpSet"], mkNode (waf_spec_ipset props) []);
         (w, mkNode KConstruct [])] ++ t).
Proof.
  intros Hwf Hid Hf w. unfold Waf_spec_new.
  step (new_node_run scope id KConstruct t Hid Hf).
  step (new_child_run w "AllowedIpSet" (waf_spec_ipset props) _ t Hwf (snoc_neq_nil _ _) Hf
          ltac:(done) ltac:(done)).
  step (new_sibling_run w "AllowedIpSet" "WebAcl" (waf_spec_acl props (w ++ ["AllowedIpSet"]))
          _ _ t Hwf (snoc_neq_nil _ _) Hf ltac:(done) ltac:(done) ltac:(done)).
  done.
Qed.

Lemma Waf_spec_new_inv scope id props t w t' :
  Inv t -> scope_exists t scope -> Waf_spec_new scope id props t = Ok (w, t') ->
  Inv t' /\ grows t t'.
Proof.
  intros HI Hs Hrun. unfold Waf_spec_new in Hrun.
  apply bind_ok in Hrun as (p & t1 & H1 & Hrun).
  apply bind_ok in Hrun as (ip & t2 & H2 & Hrun).
  apply bind_ok in Hrun as (acl & t3 & H3 & Hrun). injection Hrun as <- <-.
  destruct (new_node_inv _ _ KConstruct _ _ _ HI Hs (Forall_nil_2 _) H1) as (HI1 & Hg1 & _ & Hf1).
  destruct (new_node_inv _ _ (waf_spec_ipset props) _ _ _ HI1 (scope_exists_found _ _ _ Hf1)
              (Forall_nil_2 _) H2) as (HI2 & Hg2 & _ & Hf2).
  destruct (new_node_inv _ _ (waf_spec_acl props ip) _ _ _ HI2
              (scope_exists_grows _ _ _ Hg2 (scope_exists_found _ _ _ Hf1))
              (all_found_one _ _ (mk_is_Some _ _ Hf2)) H3) as (HI3 & Hg3 & _ & _).
  split; [done|]. by do 2 etrans.
Qed.

Lemma Waf_spec_new_err scope id props t e :
  Inv t -> scope_exists t scope -> Waf_spec_new scope id props t = Err e ->
  (id = "" /\ e = ConstructErr (EmptyId scope)) \/
  (id <> "" /\ is_Some (find t (scope ++ [sanitizeId id])) /\
   e = ConstructErr (DuplicateId scope (sanitizeId id))).
Proof.
  intros [Hwf _] Hs Hrun.
  destruct (decide (id = "")) as [->|Hid].
  { left. unfold Waf_spec_new in Hrun. rewrite (bind_err _ _ _ _ (new_node_empty _ _ _)) in Hrun.
    by injection Hrun as <-. }
  right. destruct (find t (scope ++ [sanitizeId id])) eqn:Hf.
  - unfold Waf_spec_new in Hrun.
    rewrite (bind_err _ _ _ _ (new_node_dup _ _ _ _ Hid ltac:(by rewrite Hf))) in Hrun.
    injection Hrun as <-. eauto.
  - by rewrite Waf_spec_new_run in Hrun.
Qed.

Lemma Waf_spec_new_ok scope id props t :
  Inv t -> scope_exists t scope -> id <> "" -> find t (scope ++ [sanitizeId id]) = None ->
  exists w added,
    Waf_spec_new scope id props t = Ok (w, added ++ t) /\
    Inv (added ++ t) /\
    Forall (fun pv => (scope ++ [sanitizeId id]) `prefix_of` pv.1) added /\
    acl_enforces (added ++ t) (webAcl w) (waf_scope (useCloudFront props)) (allowedIps props).
Proof.
  intros HI Hs Hid Hf. pose proof (Waf_spec_new_run scope id props t (proj1 HI) Hid Hf) as Hrun.
  cbv zeta in Hrun. eexists _, _. split; [exact Hrun|]. split_and!.
  - by destruct (Waf_spec_new_inv _ _ _ _ _ _ HI Hs Hrun).
  - repeat constructor; simpl; first [reflexivity | by apply prefix_app_r].
  - eexists _, []. simpl. rewrite decide_True by done. split_and!; try by repeat constructor.
    unfold acl_allowlist. simpl. rewrite decide_False by auto with cdk.
    rewrite decide_True by done. simpl. by rewrite app_nil_r.
Qed.
(** The only reference the construct adds is the web ACL rule's
    reference to the IP set. *)
Lemma Waf_spec_new_refs P scope id props t w t' :
  (forall a s, P (KWebACL a) (KIPSet s) = true) ->
  refs_to P t -> Waf_spec_new scope id props t = Ok (w, t') -> refs_to P t'.
Proof.
  intros HP Ht Hrun. unfold Waf_spec_new in Hrun.
  inv_bind Hrun. inv_bind Hrun. inv_bind Hrun. injection Hrun as <- <-.
  assert (H1 : refs_to P s) by (refine (new_node_refs P _ _ _ _ _ _ Ht _ Hm); constructor).
  assert (H2 : refs_to P s0) by (refine (new_node_refs P _ _ _ _ _ _ H1 _ Hm0); constructor).
  refine (new_node_refs P _ _ _ _ _ _ H2 _ Hm1). simpl. apply Forall_singleton.
  eapply new_node_ref_ok; [apply HP|exact Hm0].
Qed.
End WafSpecProofs.

#[export] Instance WafSpec : WafConstruct := {|
  Waf_new := Waf_spec_new;
  Waf_new_run := Waf_spec_new_ok;
  Waf_new_err := Waf_spec_new_err;
  Waf_new_inv := Waf_spec_new_inv;
  Waf_new_refs := Waf_spec_new_refs;
|}.

(** The spec-modelled [Waf] admits exactly its allow-list: created
    under an existing scope with a fresh id, it succeeds, and its web ACL
    is for the requested scope, blocks by default and admits exactly
    [allowedIps]. *)
Theorem Waf_spec_admits_allowlist scope id props t :
  Inv t -> scope_exists t scope -> id <> "" -> find t (scope ++ [sanitizeId id]) = None ->
  exists w t', Waf_spec_new scope id props t = Ok (w, t') /\
    acl_enforces t' (webAcl w) (waf_scope (useCloudFront props)) (allowedIps props).
Proof.
  intros HI Hs Hid Hf.
  destruct (Waf_spec_new_ok scope id props t HI Hs Hid Hf) as (w & added & Hrun & _ & _ & Hacl).
  eauto.
Qed.

Lemma Waf_spec_admits_allowlist_witness :
  exists w t', Waf_spec_new [] "Firewall" (mkWafProps ["198.51.100.0/24"] true) [] = Ok (w, t') /\
    acl_enforces t' (webAcl w) "CLOUDFRONT" ["198.51.100.0/24"].
Proof.
  apply (Waf_spec_admits_allowlist [] "Firewall" (mkWafProps ["198.51.100.0/24"] true) []);
    [exact Inv_nil | by left | discriminate | reflexivity].
Defined.
