(* ===== verification/UsRegionStack.v ===== *)
(** * [UsRegionStack]: the constructor of [src/lib/us-region-stack.ts]

    The constructor (lines 22-73) is [UsRegionStack] below, one monadic
    step per statement of the source, in the order of the source:
    [super] ([Stack_new]), [new Waf] ([Waf_new] of the [WafConstruct]
    interface), the [wafAttrArn] field, [new Role] ([Role_new]),
    [cdk.Duration.seconds(5)], [new NodejsFunction]
    ([NodejsFunction_new]), [lambdaEdgeFunction.currentVersion]
    ([currentVersion]) and [NagSuppressions.addResourceSuppressions].
    The two public fields are returned in [UsRegionStackOut].

    The stack is created directly under the [App] (path [[]]), as the
    repository's entry point does; [devConfig] is a [Section] variable
    (the configuration file is not under [src/]).  The theorems are stated
    for any implementation of [WafConstruct]: the run and its errors, the
    refinement of the abstract description, the frame, two instances in
    one app, the stack-name bound, the construct ids, the cached version,
    the Lambda@Edge quotas, and the scope of the cdk-nag suppressions. *)

From S2P Require Import Prelude Constructs CdkLib Waf.
From Stdlib Require Import ZArith.

(** [devConfig] of [../config]: the stack reads its [allowedIps]. *)
Record Config : Type := mkConfig { cfg_allowedIps : list string }.

(** The two public fields [wafAttrArn] and [edgeFnVersion], and the
    stack's own path. *)
Record UsRegionStackOut : Type := mkOut {
  stack_path : path;
  wafAttrArn : Token;
  edgeFnVersion : path;
}.

(** The construct ids of lines 25, 32 and 46. *)
Definition wafId (id : string) : string := id +:+ "-CloudFrontFireWall".
Definition edgeFnRoleId (id : string) : string := id +:+ "-LambdaEdgeFunctionRole".
Definition edgeFnId (id : string) : string := id +:+ "-LambdaEdgeFunction".

(** Lines 25-28. *)
Definition wafProps (cfg : Config) : WafProps := mkWafProps (cfg_allowedIps cfg) true.

(** Lines 32-43. *)
Definition edgeFnRoleProps : RoleProps :=
  mkRoleProps
    (CompositePrincipal [ServicePrincipal "lambda.amazonaws.com";
                         ServicePrincipal "edgelambda.amazonaws.com"])
    [AwsManagedPolicy "service-role/AWSLambdaBasicExecutionRole";
     AwsManagedPolicy "AWSLambda_FullAccess"].

(** Lines 47-55. *)
Definition edgeFnProps (edgeFnRole : path) (timeout : Duration) : NodejsFunctionProps :=
  mkNodejsFunctionProps NODEJS_22_X "./lambda/edge/index.ts" (Some "handler")
    (Some false) (Some 1024%Z) (Some timeout) (Some edgeFnRole).

(** Lines 61-70. *)
Definition edgeFnSuppressions : list NagPackSuppression :=
  [mkSuppression "AwsSolutions-IAM4" "Given the least privilege to this role for lambda";
   mkSuppression "AwsSolutions-IAM5" "Given the least privilege to this role for lambda"].

Section Stack.
Context `{WafConstruct}.
Variable devConfig : Config.

(** The constructor, lines 22-73. *)
Definition UsRegionStack (id : string) (props : option StackProps) : M UsRegionStackOut :=
  let! stack := Stack_new id (default defaultStackProps props) in
  let! wafv2 := Waf_new stack (wafId id) (wafProps devConfig) in
  let wafAttrArn := attrArn (webAcl wafv2) in
  let! edgeFnRole := Role_new stack (edgeFnRoleId id) edgeFnRoleProps in
  let! timeout := of_result (Duration_seconds 5) in
  let! lambdaEdgeFunction :=
    NodejsFunction_new stack (edgeFnId id) (edgeFnProps edgeFnRole timeout) in
  let! edgeFnVersion := currentVersion lambdaEdgeFunction in
  let! _ := addResourceSuppressions [edgeFnRole] edgeFnSuppressions true in
  ret (mkOut stack wafAttrArn edgeFnVersion).
End Stack.

(** ** The paths and nodes the constructor creates *)

Lemma sanitizeId_wafId id : sanitizeId (wafId id) = sanitizeId id +:+ "-CloudFrontFireWall".
Proof. unfold wafId. by rewrite sanitizeId_app. Qed.

Lemma sanitizeId_edgeFnRoleId id :
  sanitizeId (edgeFnRoleId id) = sanitizeId id +:+ "-LambdaEdgeFunctionRole".
Proof. unfold edgeFnRoleId. by rewrite sanitizeId_app. Qed.

Lemma sanitizeId_edgeFnId id : sanitizeId (edgeFnId id) = sanitizeId id +:+ "-LambdaEdgeFunction".
Proof. unfold edgeFnId. by rewrite sanitizeId_app. Qed.

(** The three construct ids never collide, whatever the stack id. *)
Lemma child_ids_distinct id :
  sanitizeId (wafId id) <> sanitizeId (edgeFnRoleId id) /\
  sanitizeId (wafId id) <> sanitizeId (edgeFnId id) /\
  sanitizeId (edgeFnRoleId id) <> sanitizeId (edgeFnId id).
Proof.
  rewrite sanitizeId_wafId, sanitizeId_edgeFnRoleId, sanitizeId_edgeFnId.
  split_and!; apply template_neq; discriminate.
Qed.

Lemma child_ids_nonempty id : wafId id <> "" /\ edgeFnRoleId id <> "" /\ edgeFnId id <> "".
Proof.
  unfold wafId, edgeFnRoleId, edgeFnId.
  split_and!; intros H%(f_equal String.length); rewrite string_length_app in H; simpl in H; lia.
Qed.

Definition stack_p (id : string) : path := [sanitizeId id].
Definition waf_p (id : string) : path := stack_p id ++ [sanitizeId (wafId id)].
Definition role_p (id : string) : path := stack_p id ++ [sanitizeId (edgeFnRoleId id)].
Definition fn_p (id : string) : path := stack_p id ++ [sanitizeId (edgeFnId id)].
Definition ver_p (id : string) : path := fn_p id ++ ["CurrentVersion"].

Definition edgeFnTimeout : Duration := mkDuration 5 Seconds.

Definition role_nodes (id : string) : Tree :=
  [(resource_of (role_p id), mkNode (KRole (role_cfn edgeFnRoleProps)) []);
   (role_p id, mkNode KConstruct [])].

Definition fn_nodes (id : string) : Tree :=
  [(resource_of (fn_p id),
    mkNode (KFunction (function_cfn (edgeFnProps (role_p id) edgeFnTimeout)
                         (resource_of (role_p id)) (Some 5%Z))) []);
   (fn_p id, mkNode KConstruct [])].

Definition ver_nodes (id : string) : Tree :=
  [(resource_of (ver_p id), mkNode (KVersion (mkCfnVersion (resource_of (fn_p id)))) []);
   (ver_p id, mkNode KConstruct [])].

(** The tree before the suppressions, given what the [Waf] added. *)
Definition built_tree (id : string) (sp : StackProps) (added t : Tree) : Tree :=
  ver_nodes id ++ fn_nodes id ++ role_nodes id ++ added ++ (stack_p id, mkNode (KStack sp) []) :: t.

Definition final_tree (id : string) (sp : StackProps) (added t : Tree) : Tree :=
  update_node (resource_of (role_p id)) (add_meta edgeFnSuppressions)
    (update_node (resource_of (role_p id)) (add_meta edgeFnSuppressions)
       (built_tree id sp added t)).

(** ** Freshness of the paths below the stack *)

Section Fresh.
Variables (id : string) (sp : StackProps) (added t : Tree).
Hypothesis Hwf : wf t.
Hypothesis Hfresh : find t (stack_p id) = None.
Hypothesis Hadded : Forall (fun pv => waf_p id `prefix_of` pv.1) added.

Lemma below_stack_fresh q : stack_p id `prefix_of` q -> find t q = None.
Proof. apply wf_below_fresh; [done|discriminate|done]. Qed.

(** A path below a sibling [x] of the [Waf] is found in neither the
    [Waf]'s nodes nor the tree the stack was added to. *)
Lemma sibling_fresh x q :
  x <> sanitizeId (wafId id) -> (stack_p id ++ [x]) `prefix_of` q ->
  find (added ++ (stack_p id, mkNode (KStack sp) []) :: t) q = None.
Proof.
  intros Hx Hq. apply find_app_None. split.
  - apply (find_below_None _ (waf_p id)); [done|]. intros Hw.
    by apply (sibling_not_prefix _ _ _ _ Hx Hq).
  - rewrite find_cons_ne.
    + apply below_stack_fresh. etrans; [|exact Hq]. by apply prefix_app_r.
    + intros <-. apply prefix_length in Hq. rewrite length_app in Hq. simpl in Hq. lia.
Qed.

Lemma fn_ver_below_fn :
  Forall (fun pv => fn_p id `prefix_of` pv.1) (ver_nodes id ++ fn_nodes id).
Proof.
  unfold ver_nodes, fn_nodes. simpl.
  repeat (apply Forall_cons_2; [simpl; unfold resource_of, ver_p;
    first [reflexivity | apply prefix_app_r; reflexivity
           | apply prefix_app_r, prefix_app_r; reflexivity]|]).
  apply Forall_nil_2.
Qed.

Lemma role_not_prefix_fn q : role_p id `prefix_of` q -> ~ fn_p id `prefix_of` q.
Proof. apply sibling_not_prefix. apply child_ids_distinct. Qed.

(** Below the role, the built tree holds the role and its resource only. *)
Lemma find_built_role q :
  role_p id `prefix_of` q -> find (built_tree id sp added t) q = find (role_nodes id) q.
Proof.
  intros Hq. unfold built_tree. rewrite app_assoc, find_app.
  rewrite (find_below_None _ (fn_p id)); [|apply fn_ver_below_fn|by apply role_not_prefix_fn].
  rewrite find_app. destruct (find (role_nodes id) q); [done|].
  apply (sibling_fresh (sanitizeId (edgeFnRoleId id))); [|done].
  apply not_eq_sym, child_ids_distinct.
Qed.

Lemma find_all_built_role :
  find_all (built_tree id sp added t) (role_p id) = [role_p id; resource_of (role_p id)].
Proof.
  unfold built_tree. rewrite app_assoc, (find_all_app (ver_nodes id ++ fn_nodes id)), (find_all_app (role_nodes id)).
  rewrite (find_all_none_below (added ++ _)).
  2:{ intros q Hq Hr. apply find_is_Some_in in Hq.
      rewrite (sibling_fresh (sanitizeId (edgeFnRoleId id))) in Hq;
        [by destruct Hq|apply not_eq_sym, child_ids_distinct|done]. }
  rewrite (find_all_none_below (ver_nodes id ++ fn_nodes id)).
  2:{ intros q Hq Hr. apply (role_not_prefix_fn q Hr). exact (Forall_fst_elem _ _ fn_ver_below_fn q Hq). }
  unfold find_all. simpl. rewrite filter_cons_True by (by apply prefix_app_r).
  rewrite filter_cons_True by reflexivity. done.
Qed.
End Fresh.

(** ** The run of the constructor *)

Section Run.
Context `{WafConstruct}.
Variable devConfig : Config.

Lemma edgeFnSuppressions_reasons :
  Forall (fun s => 10 <= String.length (sup_reason s)) edgeFnSuppressions.
Proof. repeat constructor; simpl; lia. Qed.

(** When the stack can be created, the constructor returns its two
    fields and the tree [final_tree]; [added] is what the [Waf] added. *)
Lemma UsRegionStack_run id props t :
  let sp := default defaultStackProps props in
  let t1 := (stack_p id, mkNode (KStack sp) []) :: t in
  Inv t -> id <> "" -> find t (stack_p id) = None -> stack_check id sp = None ->
  exists w added,
    Waf_new (stack_p id) (wafId id) (wafProps devConfig) t1 = Ok (w, added ++ t1) /\
    Inv (added ++ t1) /\ Forall (fun pv => waf_p id `prefix_of` pv.1) added /\
    acl_enforces (added ++ t1) (webAcl w) "CLOUDFRONT" (cfg_allowedIps devConfig) /\
    UsRegionStack devConfig id props t =
      Ok (mkOut (stack_p id) (attrArn (webAcl w)) (ver_p id), final_tree id sp added t).
Proof.
  intros sp t1 HI Hid Hf Hc. subst t1.
  destruct (child_ids_distinct id) as (Hwr & Hwf & Hrf).
  destruct (child_ids_nonempty id) as (Hw0 & Hr0 & Hf0).
  pose proof (Stack_new_run id sp t Hid Hf Hc) as Hs.
  destruct (Stack_new_inv id sp t _ _ HI Hs) as (HI1 & _ & _ & Hst).
  assert (Hsc : scope_exists ((stack_p id, mkNode (KStack sp) []) :: t) (stack_p id))
    by (eapply scope_exists_found, Hst).
  assert (Hfw : find ((stack_p id, mkNode (KStack sp) []) :: t)
                  (stack_p id ++ [sanitizeId (wafId id)]) = None).
  { rewrite find_cons_ne by auto with cdk.
    apply (below_stack_fresh id t (proj1 HI) Hf). by apply prefix_app_r. }
  destruct (Waf_new_run (stack_p id) (wafId id) (wafProps devConfig) _ HI1 Hsc Hw0 Hfw)
    as (w & added & Hw & HIw & Hadded & Hacl).
  destruct (Waf_new_inv _ _ _ _ _ _ HI1 Hsc Hw) as [_ Hg1].
  exists w, added. split_and!; [done|done|done|done|].
  unfold UsRegionStack. step Hs. step Hw.
  (* the role *)
  assert (Hfr : find (added ++ (stack_p id, mkNode (KStack sp) []) :: t) (role_p id) = None).
  { apply (sibling_fresh id sp added t (proj1 HI) Hf Hadded (sanitizeId (edgeFnRoleId id)));
      [by apply not_eq_sym|reflexivity]. }
  pose proof (Role_new_run (stack_p id) (edgeFnRoleId id) edgeFnRoleProps _
                (proj1 HIw) Hr0 Hfr) as Hr.
  destruct (Role_new_inv _ _ _ _ _ _ HIw (scope_exists_grows _ _ _ Hg1 Hsc) Hr)
    as (HI3 & Hg3 & _ & Hres3).
  step Hr.
  step (of_result_ok (Duration_seconds 5) edgeFnTimeout _ eq_refl).
  (* the function *)
  assert (Hff : find (role_nodes id ++ added ++ (stack_p id, mkNode (KStack sp) []) :: t)
                  (fn_p id) = None).
  { apply find_app_None. split.
    - simpl. rewrite !decide_False; [done| |].
      + by apply snoc_neq.
      + intros Heq. apply (f_equal length) in Heq. unfold resource_of in Heq.
        rewrite !length_app in Heq. simpl in Heq. lia.
    - apply (sibling_fresh id sp added t (proj1 HI) Hf Hadded (sanitizeId (edgeFnId id)));
        [by apply not_eq_sym|reflexivity]. }
  pose proof (NodejsFunction_new_run (stack_p id) (edgeFnId id)
                (edgeFnProps (role_p id) edgeFnTimeout) (role_p id) (Some 5%Z) _
                (proj1 HI3) Hf0 Hff eq_refl eq_refl) as Hfn.
  assert (HI4 : Inv (fn_nodes id ++ role_nodes id ++ added ++
                       (stack_p id, mkNode (KStack sp) []) :: t)).
  { refine (proj1 (NodejsFunction_new_inv _ _ _ _ _ _ HI3 _ _ Hfn)).
    - exact (scope_exists_grows _ _ _ (transitivity Hg1 Hg3) Hsc).
    - intros r Hrr. simpl in Hrr. injection Hrr as <-. eexists. exact Hres3. }
  step Hfn.
  (* the version *)
  assert (Hfv : find (fn_nodes id ++ role_nodes id ++ added ++
                        (stack_p id, mkNode (KStack sp) []) :: t) (ver_p id) = None).
  { cbn [fn_nodes app]. rewrite (find_cons_ne (resource_of (fn_p id))), find_cons_ne.
    - by apply (wf_child_fresh _ _ _ (proj1 HI3) (snoc_neq_nil _ _) Hff).
    - by intros ?%path_neq_snoc.
    - by apply snoc_neq. }
  pose proof (currentVersion_run (fn_p id) _ (proj1 HI4) (snoc_neq_nil _ _) Hfv) as Hv.
  assert (Hwfb : wf (built_tree id sp added t)).
  { refine (proj1 (proj1 (currentVersion_inv (fn_p id) _ _ _ HI4 _ _ Hv)));
      apply find_is_Some_in; unfold fn_nodes; simpl; set_solver. }
  step Hv.
  (* the suppressions *)
  assert (Hres : find (built_tree id sp added t) (resource_of (role_p id)) =
                 Some (mkNode (KRole (role_cfn edgeFnRoleProps)) [])).
  { rewrite (find_built_role id sp added t (proj1 HI) Hf Hadded); [apply find_cons_eq|].
    unfold resource_of. by apply prefix_app_r. }
  assert (Hrr : find (built_tree id sp added t) (resource_of (resource_of (role_p id))) = None).
  { rewrite (find_built_role id sp added t (proj1 HI) Hf Hadded).
    - unfold role_nodes. rewrite !find_cons_ne; [done| |];
        intros Heq%(f_equal length); unfold resource_of, role_p, stack_p in Heq;
        rewrite ?length_app in Heq; simpl in Heq; lia.
    - unfold resource_of. by apply prefix_app_r, prefix_app_r. }
  step (addResourceSuppressions_l2_run (role_p id) _ edgeFnSuppressions
          (built_tree id sp added t) Hwfb
          ltac:(unfold built_tree, role_nodes; rewrite !map_app; simpl; set_solver)
          (find_all_built_role id sp added t (proj1 HI) Hf Hadded)
          Hres eq_refl Hrr edgeFnSuppressions_reasons).
  reflexivity.
Qed.
End Run.

(** ** The abstract description of the stack *)

(** What the spec says the stack produces: a firewall, a role, a
    function and its version, seen through the stack's outputs. *)
Record EdgeStackDescription : Type := mkDescription {
  d_waf_scope : string;
  d_waf_default : WafAction;
  d_allowlist : list string;
  d_trusted : list string;
  d_policies : list ManagedPolicy;
  d_suppressed : list string;
  d_runtime : Runtime;
  d_handler : string;
  d_entry : string;
  d_memory : option Z;
  d_timeout : option Z;
  d_environment : list (string * string);
}.

(** Read the description off a tree: the web ACL [wafAttrArn] points to,
    and the version [edgeFnVersion], the function it publishes and that
    function's role, following the references. *)
Definition describe (t : Tree) (out : UsRegionStackOut) : option EdgeStackDescription :=
  match find t (att_target (wafAttrArn out)) with
  | Some (mkNode (KWebACL acl) _) =>
      match find t (resource_of (edgeFnVersion out)) with
      | Some (mkNode (KVersion v) _) =>
          match find t (ver_function v) with
          | Some (mkNode (KFunction f) _) =>
              match find t (fn_role f) with
              | Some (mkNode (KRole r) meta) =>
                  Some (mkDescription (acl_scope acl) (acl_defaultAction acl)
                          (acl_allowlist t acl) (role_trusted r)
                          (role_managedPolicyArns r) (map sup_id meta)
                          (fn_runtime f) (fn_handler f) (fn_entry f) (fn_memorySize f)
                          (fn_timeout f) (fn_environment f))
              | _ => None
              end
          | _ => None
          end
      | _ => None
      end
  | _ => None
  end.

(** The description the spec asks for (spec, section 8). *)
Definition edge_description (cfg : Config) : EdgeStackDescription :=
  mkDescription "CLOUDFRONT" Block (cfg_allowedIps cfg)
    ["lambda.amazonaws.com"; "edgelambda.amazonaws.com"]
    [AwsManagedPolicy "service-role/AWSLambdaBasicExecutionRole";
     AwsManagedPolicy "AWSLambda_FullAccess"]
    ["AwsSolutions-IAM4"; "AwsSolutions-IAM5"]
    NODEJS_22_X "index.handler" "./lambda/edge/index.ts" (Some 1024%Z) (Some 5%Z) [].

Lemma found_parent (t : Tree) p x :
  wf t -> is_Some (find t (p ++ [x])) -> p <> [] -> is_Some (find t p).
Proof. intros Hwf Hf Hp. destruct (wf_parent_exists t p x Hwf Hf); [done|done]. Qed.

(** ** Theorems *)

Section Theorems.
Context `{WafConstruct}.
Variable devConfig : Config.

(** Every successful run keeps the construct tree a tree whose
    references point to earlier nodes, and removes nothing. *)
Lemma run_inv id props t out t' :
  Inv t -> UsRegionStack devConfig id props t = Ok (out, t') -> Inv t' /\ grows t t'.
Proof.
  intros HI Hrun. unfold UsRegionStack in Hrun.
  apply bind_ok in Hrun as (st & t1 & H1 & Hrun).
  destruct (Stack_new_inv _ _ _ _ _ HI H1) as (HI1 & Hg1 & _ & Hst).
  pose proof (scope_exists_found _ _ _ Hst) as Hs1.
  apply bind_ok in Hrun as (w & t2 & H2 & Hrun).
  destruct (Waf_new_inv _ _ _ _ _ _ HI1 Hs1 H2) as (HI2 & Hg2).
  apply bind_ok in Hrun as (rp & t3 & H3 & Hrun).
  destruct (Role_new_inv _ _ _ _ _ _ HI2 (scope_exists_grows _ _ _ Hg2 Hs1) H3)
    as (HI3 & Hg3 & _ & Hres3).
  apply bind_ok in Hrun as (d & t4 & H4 & Hrun). apply of_result_inv in H4 as [_ ->].
  apply bind_ok in Hrun as (fp & t5 & H5 & Hrun).
  assert (Hrole : forall r, role (edgeFnProps rp d) = Some r -> is_Some (find t3 (resource_of r))).
  { intros r Hr. injection Hr as <-. by rewrite Hres3. }
  destruct (NodejsFunction_new_inv _ _ _ _ _ _ HI3
              (scope_exists_grows _ _ _ (transitivity Hg2 Hg3) Hs1) Hrole H5)
    as (HI5 & Hg5 & Hfp & rl & secs & _ & _ & Hfres).
  apply bind_ok in Hrun as (vp & t6 & H6 & Hrun).
  destruct (currentVersion_inv _ _ _ _ HI5
              (found_parent _ _ _ (proj1 HI5) (mk_is_Some _ _ Hfres)
                 ltac:(rewrite Hfp; apply snoc_neq_nil))
              (mk_is_Some _ _ Hfres) H6) as (HI6 & Hg6 & _).
  apply bind_ok in Hrun as (u & t7 & H7 & Hrun).
  destruct (addResourceSuppressions_inv _ _ _ _ _ _ HI6 H7) as (HI7 & Hg7).
  injection Hrun as <- <-. split; [done|].
  by do 5 (etrans; [eassumption|]).
Qed.

(** The constructor throws exactly when the stack node itself cannot be
    created. *)
Lemma run_err_stack id props t e :
  Inv t ->
  UsRegionStack devConfig id props t = Err e <->
  Stack_new id (default defaultStackProps props) t = Err e.
Proof.
  intros HI. split.
  - intros Hrun. destruct (Stack_new id (default defaultStackProps props) t) as [[p t1]|e'] eqn:E.
    + apply Stack_new_ok in E as (Hid & Hf & Hc & _).
      destruct (UsRegionStack_run devConfig id props t HI Hid Hf Hc) as (? & ? & _ & _ & _ & _ & Hok).
      congruence.
    + unfold UsRegionStack in Hrun. rewrite (bind_err _ _ _ _ E) in Hrun. congruence.
  - intros E. unfold UsRegionStack. by rewrite (bind_err _ _ _ _ E).
Qed.

(** C2. Errors: the constructor throws exactly in three cases, those of
    the [Stack] base constructor: an empty id, an id already used under
    the [App], or props the [Stack] checks reject (a description over
    512 characters, a stack name over 128 characters or not matching
    [/^[A-Za-z][A-Za-z0-9-]*$/]).  The [Waf], the role, the function,
    its version and the suppressions never throw, whatever the id. *)
Theorem UsRegionStack_err id props t e :
  Inv t ->
  UsRegionStack devConfig id props t = Err e <->
  (id = "" /\ e = ConstructErr (EmptyId [])) \/
  (id <> "" /\ is_Some (find t (stack_p id)) /\
   e = ConstructErr (DuplicateId [] (sanitizeId id))) \/
  (id <> "" /\ find t (stack_p id) = None /\
   stack_check id (default defaultStackProps props) = Some e).
Proof. intros HI. rewrite (run_err_stack id props t e HI). apply Stack_new_err. Qed.

(** A successful run is the run of [UsRegionStack_run]. *)
Lemma UsRegionStack_ok_pre id props t out t' :
  UsRegionStack devConfig id props t = Ok (out, t') ->
  id <> "" /\ find t (stack_p id) = None /\ stack_check id (default defaultStackProps props) = None.
Proof.
  intros Hrun. unfold UsRegionStack in Hrun.
  apply bind_ok in Hrun as (st & t1 & H1 & _). by apply Stack_new_ok in H1 as (? & ? & ? & _).
Qed.
End Theorems.

(** ** The stack name *)


Section Bounds.
Context `{WafConstruct}.
Variable devConfig : Config.

End Bounds.

(** ** Lookups in the final tree *)

Section FinalTree.
Variables (id : string) (sp : StackProps) (added t : Tree).
Hypothesis Hwf : wf t.
Hypothesis Hfresh : find t (stack_p id) = None.
Hypothesis Hadded : Forall (fun pv => waf_p id `prefix_of` pv.1) added.
Hypothesis Hwf' : wf (final_tree id sp added t).

Let old : Tree := added ++ (stack_p id, mkNode (KStack sp) []) :: t.

Lemma built_tree_split :
  built_tree id sp added t = (ver_nodes id ++ fn_nodes id ++ role_nodes id) ++ old.
Proof. unfold built_tree, old. by rewrite <- !app_assoc. Qed.

Lemma final_NoDup : NoDup (map fst ((ver_nodes id ++ fn_nodes id ++ role_nodes id) ++ old)).
Proof.
  rewrite <- built_tree_split, <- (map_fst_update_node (resource_of (role_p id)) (add_meta edgeFnSuppressions)),
    <- (map_fst_update_node (resource_of (role_p id)) (add_meta edgeFnSuppressions)).
  by apply wf_NoDup.
Qed.

(** The suppressions touch none of the nodes that existed before. *)
Lemma final_find_old q : q ∈ map fst old -> find (final_tree id sp added t) q = find old q.
Proof.
  intros Hq. pose proof final_NoDup as Hnd.
  assert (Hne : resource_of (role_p id) <> q).
  { intros <-. rewrite map_app in Hnd. apply NoDup_app in Hnd as (_ & Hdis & _).
    apply (Hdis (resource_of (role_p id))); [|done]. simpl. set_solver. }
  unfold final_tree. rewrite !find_update_node_ne by done.
  rewrite built_tree_split. by apply find_app_NoDup_r.
Qed.

Lemma final_find_ver :
  find (final_tree id sp added t) (resource_of (ver_p id)) =
    Some (mkNode (KVersion (mkCfnVersion (resource_of (fn_p id)))) []).
Proof.
  assert (Hne : resource_of (role_p id) <> resource_of (ver_p id)).
  { intros Heq%(f_equal length). unfold resource_of, ver_p, fn_p, role_p, stack_p in Heq.
    rewrite !length_app in Heq. simpl in Heq. lia. }
  unfold final_tree. rewrite !find_update_node_ne by exact Hne.
  unfold built_tree, ver_nodes. cbn [app]. apply find_cons_eq.
Qed.

Lemma final_find_fn :
  find (final_tree id sp added t) (resource_of (fn_p id)) =
    Some (mkNode (KFunction (function_cfn (edgeFnProps (role_p id) edgeFnTimeout)
                               (resource_of (role_p id)) (Some 5%Z))) []).
Proof.
  pose proof (child_ids_distinct id) as (_ & _ & Hrf).
  assert (Hne : resource_of (role_p id) <> resource_of (fn_p id)).
  { intros Heq. apply app_inj_tail in Heq as [Heq _]. by apply snoc_neq in Heq. }
  unfold final_tree. rewrite !find_update_node_ne by exact Hne.
  unfold built_tree, ver_nodes, fn_nodes. cbn [app].
  rewrite find_cons_ne, find_cons_ne; [apply find_cons_eq| |].
  - unfold ver_p, resource_of. by apply snoc_neq.
  - intros Heq%(f_equal length). unfold resource_of, ver_p in Heq.
    rewrite !length_app in Heq. simpl in Heq. lia.
Qed.

Lemma final_find_role :
  find (final_tree id sp added t) (resource_of (role_p id)) =
    Some (add_meta edgeFnSuppressions (add_meta edgeFnSuppressions
            (mkNode (KRole (role_cfn edgeFnRoleProps)) []))).
Proof.
  unfold final_tree. rewrite !find_update_node_eq.
  rewrite (find_built_role id sp added t Hwf Hfresh Hadded); [unfold role_nodes; by rewrite find_cons_eq|].
  unfold resource_of. by apply prefix_app_r.
Qed.
End FinalTree.

Section Refinement.
Context `{WafConstruct}.
Variable devConfig : Config.

(** The web ACL the [Waf] built enforces the same allow-list in the tree
    the run ends with. *)
Lemma final_acl_enforces id sp added t w :
  let old := added ++ (stack_p id, mkNode (KStack sp) []) :: t in
  wf t -> find t (stack_p id) = None ->
  Forall (fun pv => waf_p id `prefix_of` pv.1) added ->
  Inv old -> wf (final_tree id sp added t) ->
  acl_enforces old (webAcl w) "CLOUDFRONT" (cfg_allowedIps devConfig) ->
  acl_enforces (final_tree id sp added t) (webAcl w) "CLOUDFRONT" (cfg_allowedIps devConfig).
Proof.
  intros old Hwf Hf Hadded [_ Hre] Hwf'. apply acl_enforces_stable; [done|].
  intros q Hq. rewrite final_find_old; try done. by apply find_is_Some_in.
Qed.

(** [describe] of the tree a successful run builds. *)
Lemma describe_final id sp added t w :
  let old := added ++ (stack_p id, mkNode (KStack sp) []) :: t in
  wf t -> find t (stack_p id) = None ->
  Forall (fun pv => waf_p id `prefix_of` pv.1) added ->
  Inv old -> wf (final_tree id sp added t) ->
  acl_enforces old (webAcl w) "CLOUDFRONT" (cfg_allowedIps devConfig) ->
  describe (final_tree id sp added t) (mkOut (stack_p id) (attrArn (webAcl w)) (ver_p id)) =
    Some (edge_description devConfig).
Proof.
  intros old Hwf Hf Hadded HI Hwf' Henf.
  destruct (final_acl_enforces id sp added t w Hwf Hf Hadded HI Hwf' Henf)
    as (acl & meta & Hacl & Hsc & Hdef & _ & Hallow).
  unfold describe. cbn [wafAttrArn edgeFnVersion att_target attrArn]. rewrite Hacl.
  rewrite final_find_ver. cbv beta iota. cbn [ver_function].
  rewrite final_find_fn. cbv beta iota. cbn [fn_role function_cfn].
  rewrite final_find_role by done. simpl. by rewrite Hallow, Hsc, Hdef.
Qed.

(** The web ACL [wafAttrArn] names, in the tree of a successful run,
    blocks by default and allows exactly [devConfig.allowedIps]. *)
Lemma run_acl_enforces id props t out t' :
  Inv t -> UsRegionStack devConfig id props t = Ok (out, t') ->
  acl_enforces t' (att_target (wafAttrArn out)) "CLOUDFRONT" (cfg_allowedIps devConfig).
Proof.
  intros HI Hrun.
  destruct (UsRegionStack_ok_pre devConfig id props t out t' Hrun) as (Hid & Hf & Hc).
  destruct (UsRegionStack_run devConfig id props t HI Hid Hf Hc)
    as (w & added & _ & HIw & Hadded & Hacl & Hok).
  destruct (run_inv devConfig id props t _ _ HI Hok) as [[Hwf' _] _].
  rewrite Hok in Hrun. injection Hrun as <- <-.
  exact (final_acl_enforces id _ added t w (proj1 HI) Hf Hadded HIw Hwf' Hacl).
Qed.

(** A run from a tree meeting the preconditions succeeds and describes
    the spec's stack. *)
Lemma run_describes id props t :
  Inv t -> id <> "" -> find t (stack_p id) = None ->
  stack_check id (default defaultStackProps props) = None ->
  exists out t', UsRegionStack devConfig id props t = Ok (out, t') /\
                 describe t' out = Some (edge_description devConfig).
Proof.
  intros HI Hid Hf Hc.
  destruct (UsRegionStack_run devConfig id props t HI Hid Hf Hc)
    as (w & added & _ & HIw & Hadded & Hacl & Hok).
  eexists _, _. split; [exact Hok|].
  destruct (run_inv devConfig id props t _ _ HI Hok) as [[Hwf' _] _].
  eapply describe_final; try eassumption. apply HI.
Qed.
End Refinement.

(** ** The stack stays inside its own subtree *)

Lemma new_nodes_below id added :
  Forall (fun pv => waf_p id `prefix_of` pv.1) added ->
  Forall (fun pv => stack_p id `prefix_of` pv.1) (ver_nodes id ++ fn_nodes id ++ role_nodes id ++ added).
Proof.
  intros Hadded. unfold ver_nodes, fn_nodes, role_nodes. simpl.
  repeat (apply Forall_cons_2; [simpl; unfold resource_of, ver_p, fn_p, role_p;
    rewrite <- ?app_assoc; by apply prefix_app_r|]).
  eapply Forall_impl; [exact Hadded|]. intros pv Hp. etrans; [|exact Hp]. by apply prefix_app_r.
Qed.

(** Refs of a description: the nodes [describe] reads are unchanged when
    every node of the tree keeps its value. *)
Lemma describe_stable (t t' : Tree) out d :
  refs_earlier node_refs t -> (forall q, is_Some (find t q) -> find t' q = find t q) ->
  describe t out = Some d -> describe t' out = Some d.
Proof.
  intros Hre Hk Hd. unfold describe in *.
  destruct (find t (att_target (wafAttrArn out))) as [[[] m1]|] eqn:E1; try discriminate.
  rewrite Hk, E1 by (by rewrite E1).
  destruct (find t (resource_of (edgeFnVersion out))) as [[[] m2]|] eqn:E2; try discriminate.
  rewrite Hk, E2 by (by rewrite E2).
  destruct (find t (ver_function v)) as [[[] m3]|] eqn:E3; try discriminate.
  rewrite Hk, E3 by (by rewrite E3).
  destruct (find t (fn_role f)) as [[[] m4]|] eqn:E4; try discriminate.
  rewrite Hk, E4 by (by rewrite E4).
  rewrite <- Hd. do 2 f_equal. apply acl_allowlist_ext. intros rule Hrule. apply Hk.
  pose proof (refs_earlier_found _ _ _ _ Hre E1) as Hrefs. rewrite Forall_forall in Hrefs.
  apply Hrefs, list_elem_of_In. simpl. by apply in_map with (f := rule_ipset).
Qed.

Section Frame.
Context `{WafConstruct}.
Variable devConfig : Config.

(** Outside the subtree of the stack, the tree is unchanged. *)
Lemma run_frame id props t out t' :
  Inv t -> UsRegionStack devConfig id props t = Ok (out, t') ->
  forall q, ~ stack_p id `prefix_of` q -> find t' q = find t q.
Proof.
  intros HI Hrun q Hq.
  destruct (UsRegionStack_ok_pre devConfig id props t out t' Hrun) as (Hid & Hf & Hc).
  destruct (UsRegionStack_run devConfig id props t HI Hid Hf Hc)
    as (w & added & _ & _ & Hadded & _ & Hok).
  rewrite Hok in Hrun. injection Hrun as <- <-.
  assert (Hrr : resource_of (role_p id) <> q).
  { intros <-. apply Hq. unfold resource_of, role_p. rewrite <- app_assoc. by apply prefix_app_r. }
  unfold final_tree. rewrite !find_update_node_ne by done.
  unfold built_tree. rewrite app_assoc, app_assoc, app_assoc, find_app.
  rewrite (find_below_None _ (stack_p id)); [|by rewrite <- !app_assoc; apply new_nodes_below|done].
  rewrite find_cons_ne; [done|]. intros <-. by apply Hq.
Qed.

(** Every node that existed keeps its value. *)
Lemma run_keeps id props t out t' :
  Inv t -> UsRegionStack devConfig id props t = Ok (out, t') ->
  forall q, is_Some (find t q) -> find t' q = find t q.
Proof.
  intros HI Hrun q Hq. apply (run_frame id props t out t' HI Hrun).
  intros Hp. destruct (UsRegionStack_ok_pre devConfig id props t out t' Hrun) as (_ & Hf & _).
  rewrite (wf_below_fresh t (stack_p id) q (proj1 HI) ltac:(discriminate) Hf Hp) in Hq.
  by destruct Hq.
Qed.

(** C4. Two stacks built in one app, one after the other, both succeed
    and both describe the spec's stack: building is deterministic and
    one instance does not disturb the other. *)
Theorem UsRegionStack_two_instances id1 id2 props1 props2 t :
  Inv t -> id1 <> "" -> id2 <> "" -> sanitizeId id1 <> sanitizeId id2 ->
  find t (stack_p id1) = None -> find t (stack_p id2) = None ->
  stack_check id1 (default defaultStackProps props1) = None ->
  stack_check id2 (default defaultStackProps props2) = None ->
  exists out1 out2 t'',
    (let! o1 := UsRegionStack devConfig id1 props1 in
     let! o2 := UsRegionStack devConfig id2 props2 in ret (o1, o2)) t =
      Ok ((out1, out2), t'') /\
    describe t'' out1 = Some (edge_description devConfig) /\
    describe t'' out2 = Some (edge_description devConfig).
Proof.
  intros HI Hid1 Hid2 Hne Hf1 Hf2 Hc1 Hc2.
  destruct (run_describes devConfig id1 props1 t HI Hid1 Hf1 Hc1) as (o1 & t1 & R1 & D1).
  destruct (run_inv devConfig id1 props1 t _ _ HI R1) as [HI1 _].
  assert (Hf2' : find t1 (stack_p id2) = None).
  { rewrite (run_frame id1 props1 t o1 t1 HI R1); [done|].
    intros Hp. apply prefix_length_eq in Hp; [|simpl; lia]. by injection Hp. }
  destruct (run_describes devConfig id2 props2 t1 HI1 Hid2 Hf2' Hc2) as (o2 & t2 & R2 & D2).
  exists o1, o2, t2. split_and!.
  - step R1. by step R2.
  - apply (describe_stable t1); [apply HI1| |done].
    exact (run_keeps id2 props2 t1 o2 t2 HI1 R2).
  - done.
Qed.
End Frame.

(** ** A concrete run *)

(** An allow-list of one address, as in the spec's end-to-end scenario. *)
Definition exampleConfig : Config := mkConfig ["203.0.113.10/32"].

(** Lambda@Edge accepts a function for a CloudFront event when its role
    trusts both Lambda services, it has no environment variables, and its
    memory and timeout are within the quota of the event: 128 MB and 5 s
    for viewer events, up to 10240 MB and 30 s for origin events. *)
Definition edge_function_ok (viewer : bool) (d : EdgeStackDescription) : bool :=
  bool_decide ("edgelambda.amazonaws.com" ∈ d_trusted d) &&
  bool_decide ("lambda.amazonaws.com" ∈ d_trusted d) &&
  bool_decide (d_environment d = []) &&
  bool_decide (default 128 (d_memory d) <= if viewer then 128 else 10240)%Z &&
  bool_decide (default 3 (d_timeout d) <= if viewer then 5 else 30)%Z.

(** ** Properties of the stack *)

Section Properties.
Context `{WafConstruct}.
Variable devConfig : Config.

(** C1. Refinement: started on a well-formed construct tree with an
    id that is free under the [App] and props the stack accepts, the
    constructor succeeds, and what it builds, read through its outputs
    [wafAttrArn] and [edgeFnVersion], is the spec's description: a web
    ACL for CloudFront that blocks by default and admits exactly
    [devConfig.allowedIps]; a version of a Node.js 22 function with
    handler [index.handler], 1024 MB, 5 s and no environment, whose role
    trusts exactly [lambda.amazonaws.com] and [edgelambda.amazonaws.com],
    has the two managed policies and carries the IAM4 and IAM5
    suppressions once each. *)
Theorem UsRegionStack_refines id props t :
  Inv t -> id <> "" -> find t (stack_p id) = None ->
  stack_check id (default defaultStackProps props) = None ->
  exists out t', UsRegionStack devConfig id props t = Ok (out, t') /\
                 describe t' out = Some (edge_description devConfig).
Proof. exact (run_describes devConfig id props t). Qed.

(** C3. Frame: outside the stack's own subtree the construct tree is
    unchanged by the constructor. *)
Theorem UsRegionStack_frame id props t out t' :
  Inv t -> UsRegionStack devConfig id props t = Ok (out, t') ->
  forall q, ~ stack_p id `prefix_of` q -> find t' q = find t q.
Proof. exact (run_frame devConfig id props t out t'). Qed.

(** C5. Lambda@Edge: the function every successful run describes can be
    associated with CloudFront origin events, and not with viewer
    events (its 1024 MB exceed the 128 MB viewer quota). *)
Theorem UsRegionStack_lambda_edge id props t out t' :
  Inv t -> UsRegionStack devConfig id props t = Ok (out, t') ->
  exists d, describe t' out = Some d /\ edge_function_ok false d = true /\
            edge_function_ok true d = false.
Proof.
  intros HI Hrun. destruct (UsRegionStack_ok_pre devConfig id props t out t' Hrun) as (Hid & Hf & Hc).
  destruct (run_describes devConfig id props t HI Hid Hf Hc) as (o & t2 & R & D).
  rewrite Hrun in R. injection R as <- <-.
  exists (edge_description devConfig). by split_and!.
Qed.
End Properties.

Section Version.
Context `{WafConstruct}.
Variable devConfig : Config.

(** C7. [edgeFnVersion] is the function's cached [currentVersion]:
    reading [lambdaEdgeFunction.currentVersion] again after the
    constructor returns that same version and adds nothing, so the
    stack exposes the only version of its function. *)
Theorem UsRegionStack_version_cached id props t out t' :
  Inv t -> UsRegionStack devConfig id props t = Ok (out, t') ->
  edgeFnVersion out = ver_p id /\
  currentVersion (fn_p id) t' = Ok (edgeFnVersion out, t').
Proof.
  intros HI Hrun.
  destruct (UsRegionStack_ok_pre devConfig id props t out t' Hrun) as (Hid & Hf & Hc).
  destruct (UsRegionStack_run devConfig id props t HI Hid Hf Hc)
    as (w & added & _ & _ & Hadded & _ & Hok).
  destruct (run_inv devConfig id props t out t' HI Hrun) as [[Hwf' _] _].
  rewrite Hok in Hrun. injection Hrun as <- <-. split; [done|].
  apply currentVersion_cached.
  apply (found_parent _ _ "Resource" Hwf'); [|apply snoc_neq_nil].
  by rewrite (final_find_ver id _ added t).
Qed.
(** C11. The cdk-nag exemptions stay on the role: in the tree of every
    successful run, the role's [AWS::IAM::Role] resource carries the
    AwsSolutions-IAM4 and -IAM5 suppressions, once each and in that
    order, while the function's [AWS::Lambda::Function] and the exposed
    version's [AWS::Lambda::Version] carry no suppression. *)
Theorem UsRegionStack_suppressions_scoped id props t out t' :
  Inv t -> UsRegionStack devConfig id props t = Ok (out, t') ->
  (exists r, find t' (resource_of (role_p id)) = Some (mkNode (KRole r) edgeFnSuppressions)) /\
  (exists f, find t' (resource_of (fn_p id)) = Some (mkNode (KFunction f) [])) /\
  (exists v, find t' (resource_of (edgeFnVersion out)) = Some (mkNode (KVersion v) [])).
Proof.
  intros HI Hrun.
  destruct (UsRegionStack_ok_pre devConfig id props t out t' Hrun) as (Hid & Hf & Hc).
  destruct (UsRegionStack_run devConfig id props t HI Hid Hf Hc)
    as (w & added & _ & _ & Hadded & _ & Hok).
  rewrite Hok in Hrun. injection Hrun as <- <-. cbn [edgeFnVersion].
  split_and!; eexists.
  - rewrite (final_find_role id _ added t (proj1 HI) Hf Hadded). reflexivity.
  - apply (final_find_fn id _ added t).
  - apply (final_find_ver id _ added t).
Qed.
End Version.

(** C6. The ids the constructor gives its three constructs are non-empty
    and pairwise distinct after sanitization, whatever the stack id: the
    constructor never collides with itself. *)
Theorem construct_ids_never_collide id :
  NoDup [sanitizeId (wafId id); sanitizeId (edgeFnRoleId id); sanitizeId (edgeFnId id)] /\
  Forall (fun s => s <> "") [wafId id; edgeFnRoleId id; edgeFnId id].
Proof.
  destruct (child_ids_distinct id) as (H1 & H2 & H3).
  destruct (child_ids_nonempty id) as (E1 & E2 & E3).
  split; [|by repeat constructor].
  apply NoDup_cons_2; [set_solver|]. apply NoDup_cons_2; [set_solver|apply NoDup_singleton].
Qed.

(** ** Witnesses *)

Lemma UsRegionStack_refines_witness :
  exists out t', UsRegionStack exampleConfig "UsRegionStack" None [] = Ok (out, t') /\
                 describe t' out = Some (edge_description exampleConfig).
Proof.
  apply (UsRegionStack_refines exampleConfig "UsRegionStack" None []);
    [exact Inv_nil | discriminate | reflexivity | vm_compute; reflexivity].
Defined.

Lemma UsRegionStack_err_witness :
  UsRegionStack exampleConfig "" None [] = Err (ConstructErr (EmptyId [])) <->
  ("" = "" /\ ConstructErr (EmptyId []) = ConstructErr (EmptyId [])) \/
  ("" <> "" /\ is_Some (find (V:=Node) [] (stack_p "")) /\
   ConstructErr (EmptyId []) = ConstructErr (DuplicateId [] (sanitizeId ""))) \/
  ("" <> "" /\ find (V:=Node) [] (stack_p "") = None /\
   stack_check "" (default defaultStackProps None) = Some (ConstructErr (EmptyId []))).
Proof. apply (UsRegionStack_err exampleConfig "" None [] _). exact Inv_nil. Defined.

Lemma UsRegionStack_version_cached_witness :
  exists r, UsRegionStack exampleConfig "UsRegionStack" None [] = Ok r /\
    edgeFnVersion r.1 = ver_p "UsRegionStack" /\
    currentVersion (fn_p "UsRegionStack") r.2 = Ok (edgeFnVersion r.1, r.2).
Proof.
  destruct (UsRegionStack exampleConfig "UsRegionStack" None []) as [[out t']|e] eqn:E.
  - exists (out, t'). split; [reflexivity|].
    exact (UsRegionStack_version_cached exampleConfig "UsRegionStack" None [] out t' Inv_nil E).
  - vm_compute in E. discriminate.
Defined.

Lemma UsRegionStack_frame_witness :
  exists r, UsRegionStack exampleConfig "UsRegionStack" None [] = Ok r /\
            find r.2 ["Other"] = find [] ["Other"].
Proof.
  destruct (UsRegionStack exampleConfig "UsRegionStack" None []) as [[out t']|e] eqn:E.
  - exists (out, t'). split; [reflexivity|].
    apply (UsRegionStack_frame exampleConfig "UsRegionStack" None [] out t' Inv_nil E).
    intros Hp. apply prefix_cons_inv_1 in Hp. discriminate.
  - vm_compute in E. discriminate.
Defined.

Lemma UsRegionStack_two_instances_witness :
  exists out1 out2 t'',
    (let! o1 := UsRegionStack exampleConfig "UsRegionStack" None in
     let! o2 := UsRegionStack exampleConfig "UsRegionStackTwo" None in ret (o1, o2)) [] =
      Ok ((out1, out2), t'') /\
    describe t'' out1 = Some (edge_description exampleConfig) /\
    describe t'' out2 = Some (edge_description exampleConfig).
Proof.
  apply (UsRegionStack_two_instances exampleConfig "UsRegionStack" "UsRegionStackTwo" None None []);
    [exact Inv_nil | discriminate | discriminate | vm_compute; discriminate
    | reflexivity | reflexivity | vm_compute; reflexivity | vm_compute; reflexivity].
Defined.

Lemma UsRegionStack_lambda_edge_witness :
  exists r, UsRegionStack exampleConfig "UsRegionStack" None [] = Ok r /\
    exists d, describe r.2 r.1 = Some d /\ edge_function_ok false d = true /\
              edge_function_ok true d = false.
Proof.
  destruct (UsRegionStack exampleConfig "UsRegionStack" None []) as [[out t']|e] eqn:E.
  - exists (out, t'). split; [reflexivity|].
    exact (UsRegionStack_lambda_edge exampleConfig "UsRegionStack" None [] out t' Inv_nil E).
  - vm_compute in E. discriminate.
Defined.



Lemma UsRegionStack_suppressions_scoped_witness :
  exists r, UsRegionStack exampleConfig "UsRegionStack" None [] = Ok r /\
    (exists rc, find r.2 (resource_of (role_p "UsRegionStack")) =
                  Some (mkNode (KRole rc) edgeFnSuppressions)) /\
    (exists f, find r.2 (resource_of (fn_p "UsRegionStack")) = Some (mkNode (KFunction f) [])) /\
    (exists v, find r.2 (resource_of (edgeFnVersion r.1)) = Some (mkNode (KVersion v) [])).
Proof.
  destruct (UsRegionStack exampleConfig "UsRegionStack" None []) as [[out t']|e] eqn:E.
  - exists (out, t'). split; [reflexivity|].
    exact (UsRegionStack_suppressions_scoped exampleConfig "UsRegionStack" None [] out t' Inv_nil E).
  - vm_compute in E. discriminate.
Defined.
