(* ===== verification/Deploy.v ===== *)
(** * The dependency order of the produced template

    The spec (section 4.1) says the stack "produces no ordering guarantees
    beyond whatever dependency order the external provisioning system
    infers from reference edges (the function depends on the role; the
    exposed version depends on the function)".  The provisioning service
    is not code of the repository; it is modelled here, from the spec, as
    a step relation [deploy_step] on the list of resources created so far
    (newest first): a step creates one resource of the template that is
    not created yet and whose references all are.  [run_plan] runs a plan
    of creations, checking each step, and is executable.

    The theorems are about the trees the constructor produces:
    - every reachable deployment state is ordered: each created resource
      was created after everything it references ([deploy_reach_ordered],
      by rule induction on the reflexive-transitive closure);
    - in the produced template the function is created after its role's
      [CfnRole] and the version after the [CfnFunction]. *)

From stdpp Require Import relations.
From S2P Require Import Prelude Constructs CdkLib Waf UsRegionStack.

(** The resources the resource at [p] references. *)
Definition deps (t : Tree) (p : path) : list path :=
  match find t p with Some n => node_refs n | None => [] end.

(** One creation by the provisioning service; [D] is newest first. *)
Inductive deploy_step (t : Tree) : list path -> list path -> Prop :=
| deploy_create D p :
    res_found t p -> p ∉ D -> Forall (fun r => r ∈ D) (deps t p) ->
    deploy_step t D (p :: D).

(** Each created resource was created after what it references. *)
Definition deploy_ordered (t : Tree) (D : list path) : Prop :=
  forall D1 p D2, D = D1 ++ p :: D2 -> Forall (fun r => r ∈ D2) (deps t p).

#[global] Instance res_found_dec t p : Decision (res_found t p).
Proof.
  unfold res_found. destruct (find t p) as [m|].
  - destruct (decide (is_resource (node_kind m) = true)); [left; by eexists|right].
    intros (m' & [= <-] & ?). done.
  - right. by intros (m & ? & _).
Defined.

(** The check the service makes before a creation. *)
Definition ready (t : Tree) (D : list path) (p : path) : bool :=
  bool_decide (res_found t p) && bool_decide (p ∉ D) &&
  bool_decide (Forall (fun r => r ∈ D) (deps t p)).

(** Run a plan of creations; [None] when a step is not ready. *)
Fixpoint run_plan (t : Tree) (D : list path) (plan : list path) : option (list path) :=
  match plan with
  | [] => Some D
  | p :: plan' => if ready t D p then run_plan t (p :: D) plan' else None
  end.

(** The resources of [t], newest first, and in creation order. *)
Fixpoint resources_rev (t : Tree) : list path :=
  match t with
  | [] => []
  | (p, n) :: t' => if is_resource (node_kind n) then p :: resources_rev t' else resources_rev t'
  end.

Definition resources (t : Tree) : list path := reverse (resources_rev t).

(** ** Plans and steps *)

Lemma ready_step t D p : ready t D p = true -> deploy_step t D (p :: D).
Proof.
  unfold ready. intros [[H1 H2]%andb_prop H3]%andb_prop.
  apply bool_decide_eq_true in H1, H2, H3. by constructor.
Qed.

Lemma run_plan_sound t D plan D' : run_plan t D plan = Some D' -> rtc (deploy_step t) D D'.
Proof.
  revert D. induction plan as [|p plan IH]; intros D; simpl.
  - intros [= ->]. reflexivity.
  - destruct (ready t D p) eqn:E; [|done]. intros Hrun.
    eapply rtc_l; [by apply ready_step|]. by apply IH.
Qed.

(** ** Reachable deployment states *)

(** Rule induction: the created resources are distinct resources of the
    template, each created after everything it references. *)
Lemma deploy_reach_ordered t D D' :
  rtc (deploy_step t) D D' -> deploy_ordered t D -> NoDup D -> Forall (res_found t) D ->
  deploy_ordered t D' /\ NoDup D' /\ Forall (res_found t) D'.
Proof.
  induction 1 as [D|D Dm D' Hstep _ IH]; [done|]. intros Hord Hnd Hres.
  destruct Hstep as [D p Hp HpD Hdeps]. apply IH.
  - intros D1 q D2 Heq. destruct D1 as [|x D1]; simpl in Heq; injection Heq as -> Heq.
    + by subst.
    + by apply (Hord D1 q D2).
  - by constructor.
  - by constructor.
Qed.

(** ** The template the constructor produces *)

Section Stack.
Context `{WafConstruct}.
Variable devConfig : Config.

(** The two reference edges the spec names: the function's role and the
    version's function. *)
Lemma run_deps id props t out t' :
  Inv t -> UsRegionStack devConfig id props t = Ok (out, t') ->
  edgeFnVersion out = ver_p id /\
  deps t' (resource_of (fn_p id)) = [resource_of (role_p id)] /\
  deps t' (resource_of (ver_p id)) = [resource_of (fn_p id)].
Proof.
  intros HI Hrun.
  destruct (UsRegionStack_ok_pre devConfig id props t out t' Hrun) as (Hid & Hf & Hc).
  destruct (UsRegionStack_run devConfig id props t HI Hid Hf Hc)
    as (w & added & _ & _ & Hadded & _ & Hok).
  destruct (run_inv devConfig id props t out t' HI Hrun) as [[Hwf' _] _].
  rewrite Hok in Hrun. injection Hrun as <- <-. unfold deps.
  split_and!; [done| |].
  - rewrite (final_find_fn id _ added t); try done.
  - rewrite (final_find_ver id _ added t); try done.
Qed.

(** C8. Whatever order the provisioning service chooses, it creates
    the edge function after its role's [CfnRole], and the exposed version
    [edgeFnVersion] after the function's [CfnFunction]: in every
    deployment state reachable from nothing, the resource created before
    each of them is already there. *)
Theorem UsRegionStack_deploy_order id props t out t' D :
  Inv t -> UsRegionStack devConfig id props t = Ok (out, t') -> rtc (deploy_step t') [] D ->
  (forall D1 D2, D = D1 ++ resource_of (fn_p id) :: D2 -> resource_of (role_p id) ∈ D2) /\
  (forall D1 D2, D = D1 ++ resource_of (edgeFnVersion out) :: D2 -> resource_of (fn_p id) ∈ D2).
Proof.
  intros HI Hrun Hreach.
  destruct (run_deps id props t out t' HI Hrun) as (-> & Hfn & Hver).
  destruct (deploy_reach_ordered t' [] D Hreach) as (Hord & _ & _);
    [by intros [] ? ? ?|constructor|constructor|].
  split; intros D1 D2 HD; pose proof (Hord D1 _ D2 HD) as Hd;
    [rewrite Hfn in Hd|rewrite Hver in Hd]; by inversion Hd.
Qed.
End Stack.

(** ** Witness: the plan [run_plan] accepts for the scenario's stack *)

Lemma UsRegionStack_deploy_order_witness :
  exists out t' D, UsRegionStack exampleConfig "UsRegionStack" None [] = Ok (out, t') /\
    rtc (deploy_step t') [] D /\
    (forall D1 D2, D = D1 ++ resource_of (fn_p "UsRegionStack") :: D2 ->
                   resource_of (role_p "UsRegionStack") ∈ D2) /\
    (forall D1 D2, D = D1 ++ resource_of (edgeFnVersion out) :: D2 ->
                   resource_of (fn_p "UsRegionStack") ∈ D2).
Proof.
  destruct (UsRegionStack exampleConfig "UsRegionStack" None []) as [[out t']|e] eqn:E.
  - destruct (run_plan t' [] (resources t')) as [D|] eqn:P.
    + exists out, t', D. assert (Hr : rtc (deploy_step t') [] D) by exact (run_plan_sound _ _ _ _ P).
      split_and!; [reflexivity|exact Hr|..];
        apply (UsRegionStack_deploy_order exampleConfig "UsRegionStack" None [] out t' D Inv_nil E Hr).
    + vm_compute in E. injection E as <- <-. vm_compute in P. discriminate.
  - vm_compute in E. discriminate.
Defined.
