(* ===== verification/WafEval.v ===== *)
(** * The allow-list the stack's web ACL enforces, on IPv4 addresses

    The stack passes [devConfig.allowedIps] to the [Waf] construct
    ([src/lib/us-region-stack.ts], lines 25-28); the spec (section 9)
    says what the list means: "network addresses permitted by the
    firewall; all others implicitly denied when the firewall is active".
    This file gives the list that meaning and proves the stack has it.
    - [Module Cidr]: IPv4 addresses as 32-bit integers, CIDR blocks
      ["a.b.c.d/n"], their parser [parse_cidr], and membership by the
      network mask ([Z.land], [Z.shiftl], [Z.ones]).  The parser and the
      mask are those of the firewall service, modelled from the spec and
      the service's IP-set format: four decimal octets of at most three
      digits and at most 255, a prefix length of 1 to 32 (the service
      refuses [/0]).
    - [Module Eval]: the evaluation of a web ACL on a source address:
      the rules in ascending priority, the first rule whose IP set holds
      the address decides, else the default action.
    The theorem of [Eval] carries the [Waf] contract ([acl_enforces]) to
    the web ACL of every successful run of [UsRegionStack]: it allows
    exactly the addresses in a block of [allowedIps] and denies all
    others. *)

From stdpp Require Import sorting.
From S2P Require Import Prelude Constructs CdkLib Waf UsRegionStack.
From Stdlib Require Import ZArith Ascii.

Module Cidr.
Local Open Scope Z_scope.

(** An IPv4 address is a 32-bit unsigned integer. *)
Definition addr_bits : Z := 32.

(** [a.b.c.d], the most significant octet first. *)
Definition ipv4_of_octets (a b c d : Z) : Z :=
  Z.lor (Z.shiftl a 24) (Z.lor (Z.shiftl b 16) (Z.lor (Z.shiftl c 8) d)).

(** A CIDR block: an address and a prefix length. *)
Record cidr : Type := mkCidr { cidr_addr : Z; cidr_len : Z }.

(** The network mask of an [n]-bit prefix: [n] ones, then [32 - n] zeros. *)
Definition mask (n : Z) : Z := Z.shiftl (Z.ones n) (addr_bits - n).

(** [ip] is in the block when it agrees with the block's address under
    the mask. *)
Definition in_cidr (ip : Z) (c : cidr) : bool :=
  Z.land ip (mask (cidr_len c)) =? Z.land (cidr_addr c) (mask (cidr_len c)).

(** ** Parsing ["a.b.c.d/n"] *)

Definition is_digit (ch : ascii) : bool := bool_decide (48 <= nat_of_ascii ch <= 57)%nat.

(** The longest prefix of decimal digits of [s], and the rest. *)
Fixpoint span_digits (s : string) : string * string :=
  match s with
  | String ch s' => if is_digit ch then let '(d, r) := span_digits s' in (String ch d, r)
                    else (EmptyString, s)
  | EmptyString => (EmptyString, EmptyString)
  end.

(** The value of the digits [d] read after digits worth [acc]. *)
Fixpoint digits_value (acc : Z) (d : string) : Z :=
  match d with
  | EmptyString => acc
  | String ch d' => digits_value (10 * acc + (Z.of_nat (nat_of_ascii ch) - 48)) d'
  end.

(** A decimal number of 1 to [max_digits] digits and at most [bound]. *)
Definition parse_num (max_digits : nat) (bound : Z) (s : string) : option (Z * string) :=
  let '(d, r) := span_digits s in
  let v := digits_value 0 d in
  if bool_decide (1 <= String.length d <= max_digits)%nat && (v <=? bound) then Some (v, r)
  else None.

Definition expect (ch : ascii) (s : string) : option string :=
  match s with
  | String ch' r => if bool_decide (ch' = ch) then Some r else None
  | EmptyString => None
  end.

(** ["a.b.c.d/n"], nothing before or after, with a prefix of at least
    one bit. *)
Definition parse_cidr (s : string) : option cidr :=
  '(a, s) ← parse_num 3 255 s; s ← expect "." s;
  '(b, s) ← parse_num 3 255 s; s ← expect "." s;
  '(c, s) ← parse_num 3 255 s; s ← expect "." s;
  '(d, s) ← parse_num 3 255 s; s ← expect "/" s;
  '(n, s) ← parse_num 2 32 s;
  if bool_decide (s = EmptyString) && (1 <=? n) then Some (mkCidr (ipv4_of_octets a b c d) n)
  else None.

(** ** Round trip *)

End Cidr.

(** ** Evaluating a web ACL *)

Module Eval.
Import Cidr.
Local Open Scope Z_scope.

(** An allow-list entry holds [ip] when it parses to a block holding
    [ip]; an entry that is not an IPv4 block holds no address. *)
Definition addr_matches (ip : Z) (a : string) : bool :=
  match parse_cidr a with Some c => in_cidr ip c | None => false end.

Definition ipset_matches (s : CfnIPSet) (ip : Z) : bool :=
  existsb (addr_matches ip) (ipset_addresses s).

(** The rule's [ipSetReferenceStatement]: its IP set, read in [t], holds [ip]. *)
Definition rule_matches (t : Tree) (ip : Z) (r : WafRule) : bool :=
  match find t (rule_ipset r) with
  | Some (mkNode (KIPSet s) _) => ipset_matches s ip
  | _ => false
  end.

Definition by_priority (r1 r2 : WafRule) : Prop := rule_priority r1 <= rule_priority r2.

#[export] Instance by_priority_dec : RelDecision by_priority.
Proof. intros r1 r2. unfold by_priority. apply _. Defined.

(** The action for a request from [ip]: the first rule in ascending
    priority whose statement matches decides; otherwise the default. *)
Definition acl_eval (t : Tree) (acl : CfnWebACL) (ip : Z) : WafAction :=
  match List.find (rule_matches t ip) (merge_sort by_priority (acl_rules acl)) with
  | Some r => rule_action r
  | None => acl_defaultAction acl
  end.

Lemma existsb_Permutation {A} (f : A -> bool) l l' : l ≡ₚ l' -> existsb f l = existsb f l'.
Proof.
  induction 1 as [|x l l' _ IH|x y l|l l' l'' _ IH1 _ IH2]; simpl; try congruence.
  by destruct (f x), (f y).
Qed.

Lemma find_None_existsb {A} (f : A -> bool) l : List.find f l = None -> existsb f l = false.
Proof. induction l as [|x l IH]; simpl; [done|]. destruct (f x); [done|exact IH]. Qed.

(** With allow rules only, some rule matches exactly when an address of
    the allow-list does. *)
Lemma allowlist_matches t ip acl :
  Forall (fun r => rule_action r = Allow) (acl_rules acl) ->
  existsb (rule_matches t ip) (acl_rules acl) = existsb (addr_matches ip) (acl_allowlist t acl).
Proof.
  destruct acl as [sc def rs]. unfold acl_allowlist. cbn [acl_rules].
  induction 1 as [|r rs Hr _ IH]; [done|]. cbn [map concat existsb].
  rewrite existsb_app, IH, Hr. unfold rule_matches.
  by destruct (find t (rule_ipset r)) as [[[] ?]|].
Qed.

(** A web ACL with allow rules only allows the addresses of its
    allow-list and gives the default action to all others. *)
Lemma acl_eval_allow_only t acl ip :
  Forall (fun r => rule_action r = Allow) (acl_rules acl) ->
  acl_eval t acl ip =
    if existsb (addr_matches ip) (acl_allowlist t acl) then Allow else acl_defaultAction acl.
Proof.
  intros Hall. rewrite <- allowlist_matches by done.
  pose proof (merge_sort_Permutation by_priority (acl_rules acl)) as Hp.
  rewrite <- (existsb_Permutation _ _ _ Hp). unfold acl_eval.
  destruct (List.find _ _) as [r|] eqn:E.
  - apply find_some in E as [Hin Hm].
    rewrite (proj2 (existsb_exists _ _)) by eauto.
    rewrite Forall_forall in Hall. apply Hall, list_elem_of_In.
    by apply (Permutation_in _ Hp).
  - by rewrite find_None_existsb.
Qed.

(** What [acl_enforces] says, as the action for each address. *)
Lemma enforces_eval t p sc ips :
  acl_enforces t p sc ips ->
  exists acl meta, find t p = Some (mkNode (KWebACL acl) meta) /\
    forall ip, acl_eval t acl ip = if existsb (addr_matches ip) ips then Allow else Block.
Proof.
  intros (acl & meta & Hacl & _ & Hdef & Hall & Hallow). exists acl, meta. split; [done|].
  intros ip. by rewrite acl_eval_allow_only, Hallow, Hdef.
Qed.

(** The decision for an allow-list [l], as a statement on its entries. *)
Lemma allow_iff_exists ip l :
  (if existsb (addr_matches ip) l then Allow else Block) = Allow <->
  exists a c, a ∈ l /\ parse_cidr a = Some c /\ in_cidr ip c = true.
Proof.
  destruct (existsb _ _) eqn:E.
  - apply existsb_exists in E as (a & Hin & Hm). unfold addr_matches in Hm.
    destruct (parse_cidr a) as [c|] eqn:Hp; [|done].
    split; [|done]. intros _. exists a, c. by rewrite list_elem_of_In.
  - split; [done|]. intros (a & c & Hin & Hp & Hm).
    rewrite <- not_true_iff_false in E. exfalso. apply E, existsb_exists.
    exists a. rewrite <- list_elem_of_In. unfold addr_matches. by rewrite Hp.
Qed.

(** ** The stack's firewall *)

Section Stack.
Context `{WafConstruct}.
Variable devConfig : Config.

(** The web ACL of a successful run, as the action for each address. *)
Lemma run_acl_eval id props t out t' :
  Inv t -> UsRegionStack devConfig id props t = Ok (out, t') ->
  exists acl meta, find t' (att_target (wafAttrArn out)) = Some (mkNode (KWebACL acl) meta) /\
    forall ip, acl_eval t' acl ip =
      if existsb (addr_matches ip) (cfg_allowedIps devConfig) then Allow else Block.
Proof.
  intros HI Hrun. exact (enforces_eval _ _ _ _ (run_acl_enforces devConfig id props t out t' HI Hrun)).
Qed.

(** C10. Refinement of the allow-list contract (spec, section 9): in the
    tree of every successful run, the web ACL [wafAttrArn] names allows
    a request from [ip] exactly when some entry of
    [devConfig.allowedIps] is an IPv4 block holding [ip]; every other
    address is denied. *)
Theorem UsRegionStack_allowlist_refines id props t out t' :
  Inv t -> UsRegionStack devConfig id props t = Ok (out, t') ->
  exists acl meta, find t' (att_target (wafAttrArn out)) = Some (mkNode (KWebACL acl) meta) /\
    forall ip, acl_eval t' acl ip = Allow <->
      exists a c, a ∈ cfg_allowedIps devConfig /\ parse_cidr a = Some c /\ in_cidr ip c = true.
Proof.
  intros HI Hrun. destruct (run_acl_eval id props t out t' HI Hrun) as (acl & meta & Hf & Hev).
  exists acl, meta. split; [done|]. intros ip. by rewrite Hev, allow_iff_exists.
Qed.

End Stack.

(** ** Witness *)

Lemma UsRegionStack_allowlist_refines_witness :
  exists out t', UsRegionStack exampleConfig "UsRegionStack" None [] = Ok (out, t') /\
    exists acl meta, find t' (att_target (wafAttrArn out)) = Some (mkNode (KWebACL acl) meta) /\
      forall ip, acl_eval t' acl ip = Allow <->
        exists a c, a ∈ cfg_allowedIps exampleConfig /\ parse_cidr a = Some c /\ in_cidr ip c = true.
Proof.
  destruct (UsRegionStack exampleConfig "UsRegionStack" None []) as [[out t']|e] eqn:E.
  - exists out, t'. split; [reflexivity|].
    exact (UsRegionStack_allowlist_refines exampleConfig "UsRegionStack" None [] out t' Inv_nil E).
  - vm_compute in E. discriminate.
Defined.

End Eval.
